(** * gowk/sql: field mapping and query generation

  A shallow embedding of [executor.go] (package gosql: the reflective
  query builder) and of the batch operations of [db.go] (package sql),
  followed by the properties of the generated SQL text, of the argument
  lists and of the transaction discipline.

  Go strings are byte strings: [string].  A [bytes.Buffer] is the string
  written so far.  A panic is an outcome of its own, distinct from a
  returned Go [error].  The collaborators (the injected [sqlExecutor],
  [database/sql], the logging sink) are interfaces: classes whose
  methods act on an abstract collaborator state, with every call also
  recorded in a trace so that the order and the arguments of the calls
  can be stated. *)

From Stdlib Require Import String Ascii List ZArith Bool Lia PeanoNat.
Import ListNotations.

#[local] Set Warnings "-register-all".

Local Open Scope list_scope.
Local Open Scope string_scope.

(** ** Outcomes and the state-and-panic monad *)

Inductive outcome (A : Type) : Type :=
| Returned (a : A)
| Panicked (msg : string).

Arguments Returned {A} a.
Arguments Panicked {A} msg.

Definition M (W A : Type) : Type := W -> outcome A * W.

Definition ret {W A : Type} (a : A) : M W A := fun w => (Returned a, w).

Definition panic {W A : Type} (msg : string) : M W A :=
  fun w => (Panicked msg, w).

Definition bind {W A B : Type} (c : M W A) (k : A -> M W B) : M W B :=
  fun w =>
    match c w with
    | (Returned a, w') => k a w'
    | (Panicked msg, w') => (Panicked msg, w')
    end.

(** a step of package reflect or bytes: no effect on the world *)
Definition lift {W A : Type} (o : outcome A) : M W A := fun w => (o, w).

Declare Scope go_scope.
Delimit Scope go_scope with go.

Notation "x <- c ;; k" := (bind c (fun x => k))
  (at level 61, c at next level, right associativity) : go_scope.
Notation "' pat <- c ;; k" := (bind c (fun x => match x with pat => k end))
  (at level 61, pat pattern, c at next level, right associativity) : go_scope.

(** [defer f()] before [body]: [f] runs when [body] is left, by return or
    by panic, and a panic of the body goes on after it. *)
Definition defer {W A : Type} (f : W -> W) (body : M W A) : M W A :=
  fun w => let (r, w') := body w in (r, f w').

(** [for _, x := range xs { body }] where the body may leave the function:
    [Some r] is an early [return r], [None] goes on to the next element. *)
Fixpoint rangeReturn {W A R : Type} (body : A -> M W (option R))
  (xs : list A) : M W (option R) :=
  match xs with
  | [] => ret None
  | x :: rest =>
      bind (body x) (fun r =>
        match r with
        | Some e => ret (Some e)
        | None => rangeReturn body rest
        end)
  end.

(** every element through a step that may panic, left to right *)
Fixpoint mapOutcome {A B : Type} (f : A -> outcome B) (xs : list A)
  : outcome (list B) :=
  match xs with
  | [] => Returned []
  | x :: rest =>
      match f x with
      | Panicked msg => Panicked msg
      | Returned y =>
          match mapOutcome f rest with
          | Panicked msg => Panicked msg
          | Returned ys => Returned (y :: ys)
          end
      end
  end.

(** ** Package strings and bytes.Buffer *)

Module strings.

(** [strings.Join(elems, sep)] *)
Fixpoint Join (elems : list string) (sep : string) : string :=
  match elems with
  | [] => ""
  | [e] => e
  | e :: rest => e ++ sep ++ Join rest sep
  end.

(** [strings.Repeat(s, count)], the count being a length here *)
Fixpoint Repeat (s : string) (count : nat) : string :=
  match count with
  | O => ""
  | S n => s ++ Repeat s n
  end.

(** number of occurrences of the byte [c] *)
Fixpoint Count (c : ascii) (s : string) : nat :=
  match s with
  | EmptyString => 0
  | String a rest => (if Ascii.eqb a c then 1 else 0) + Count c rest
  end.

(** the first [n] bytes *)
Fixpoint take (n : nat) (s : string) : string :=
  match n, s with
  | O, _ => ""
  | S _, EmptyString => ""
  | S m, String a rest => String a (take m rest)
  end.

End strings.

Module Buffer.

Definition t : Type := string.

Definition empty : t := "".

Definition WriteString (b : t) (s : string) : t := b ++ s.

Definition Len (b : t) : Z := Z.of_nat (String.length b).

(** [Truncate(n)] keeps the first [n] bytes and panics when [n] is
    negative or beyond the length. *)
Definition Truncate (b : t) (n : Z) : outcome t :=
  if ((n <? 0) || (Len b <? n))%Z
  then Panicked "bytes.Buffer: truncation out of range"
  else Returned (strings.take (Z.to_nat n) b).

Definition String_ (b : t) : string := b.

End Buffer.

(** ** Go values as package reflect sees them *)

Inductive rtype : Type :=
| TInt
| TString
| TMap
| TPtr (elem : rtype)
| TSlice (elem : rtype)
| TStruct (name : string).

(** An [interface{}] value.  [VMap] is a [map[string]interface{}], its
  entries in the order one [range] over it produces.  A pointer carries
  its element type and is nil or holds its target; a slice is nil or
  holds its elements. *)
Inductive value : Type :=
| VNil
| VInt (n : Z)
| VString (s : string)
| VMap (entries : list (string * value))
| VPtr (elem : rtype) (target : option value)
| VSlice (elem : rtype) (items : option (list value))
| VStruct (name : string) (fields : list value).

Definition rtype_eq_dec (a b : rtype) : {a = b} + {a <> b}.
Proof. decide equality. apply string_dec. Defined.

(** The struct types the program declares: for each, by name, the zero
    values of its fields (what [reflect.New] of the type holds). *)
Class Types : Type := { zeroFields : string -> list value }.

(** The address of field [fieldIndex] of a freshly allocated struct
    [inStruct]: what [elem.Field(idx).Addr().Interface()] hands to Scan. *)
Record fieldAddr : Type := { inStruct : string; fieldIndex : nat }.

(** [l[i] = x], nothing when [i] is out of range (the callers check). *)
Fixpoint setNth {A : Type} (i : nat) (x : A) (l : list A) : list A :=
  match l, i with
  | [], _ => []
  | _ :: rest, O => x :: rest
  | y :: rest, S j => y :: setNth j x rest
  end.

(** What a successful [Scan] stored through the destination pointers. *)
Fixpoint storeAll (fs : list value) (dest : list fieldAddr) (vals : list value)
  : list value :=
  match dest, vals with
  | d :: ds, x :: xs => storeAll (setNth (fieldIndex d) x fs) ds xs
  | _, _ => fs
  end.

Module reflect.

Inductive Kind : Type := Invalid | Int | String | Map | Ptr | Slice | Struct.

Definition Kind_eqb (a b : Kind) : bool :=
  match a, b with
  | Invalid, Invalid | Int, Int | String, String | Map, Map
  | Ptr, Ptr | Slice, Slice | Struct, Struct => true
  | _, _ => false
  end.

(** [Type.Kind()] *)
Definition TypeKind (t : rtype) : Kind :=
  match t with
  | TInt => Int
  | TString => String
  | TMap => Map
  | TPtr _ => Ptr
  | TSlice _ => Slice
  | TStruct _ => Struct
  end.

(** A [reflect.Value]: the value it holds and whether it is settable.
    [ValueOf] yields a value that is not addressable, hence not
    settable; [Elem] of a pointer yields a settable one. *)
Record Value : Type := mkValue { holds : value; settable : bool }.

Definition ValueOf (i : value) : Value :=
  {| holds := i; settable := false |}.

Definition Kind_ (v : Value) : Kind :=
  match holds v with
  | VNil => Invalid
  | VInt _ => Int
  | VString _ => String
  | VMap _ => Map
  | VPtr _ _ => Ptr
  | VSlice _ _ => Slice
  | VStruct _ _ => Struct
  end.

Definition IsValid (v : Value) : bool := negb (Kind_eqb (Kind_ v) Invalid).

(** [IsNil], used by the source on values of kind [Ptr] only. *)
Definition IsNil (v : Value) : bool :=
  match holds v with
  | VPtr _ None => true
  | VSlice _ None => true
  | _ => false
  end.

Definition CanSet (v : Value) : bool := settable v.

(** [Value.Type()]; the zero [Value] has none and panics. *)
Definition Type_ (v : Value) : outcome rtype :=
  match holds v with
  | VNil => Panicked "reflect: call of reflect.Value.Type on zero Value"
  | VInt _ => Returned TInt
  | VString _ => Returned TString
  | VMap _ => Returned TMap
  | VPtr e _ => Returned (TPtr e)
  | VSlice e _ => Returned (TSlice e)
  | VStruct n _ => Returned (TStruct n)
  end.

(** [Type.Elem()] of a pointer or slice type *)
Definition TypeElem (t : rtype) : outcome rtype :=
  match t with
  | TPtr e => Returned e
  | TSlice e => Returned e
  | _ => Panicked "reflect: Elem of invalid type"
  end.

(** [Value.Elem()] of a pointer; of a nil pointer it is the zero Value. *)
Definition Elem (v : Value) : outcome Value :=
  match holds v with
  | VPtr _ (Some x) => Returned {| holds := x; settable := true |}
  | VPtr _ None => Returned {| holds := VNil; settable := false |}
  | _ => Panicked "reflect: call of reflect.Value.Elem on non-pointer Value"
  end.

(** [Value.Field(i)] of a struct *)
Definition Field (v : Value) (i : nat) : outcome Value :=
  match holds v with
  | VStruct _ fs =>
      match nth_error fs i with
      | Some x => Returned {| holds := x; settable := settable v |}
      | None => Panicked "reflect: Field index out of range"
      end
  | _ => Panicked "reflect: call of reflect.Value.Field on non-struct Value"
  end.

(** [Value.Interface()]; the fields the inspector lists are exported, so
    that it does not panic on them. *)
Definition Interface (v : Value) : value := holds v.

(** [Value.Set(x)]: only on a settable value. *)
Definition Set_ (v : Value) (x : Value) : outcome Value :=
  if CanSet v
  then Returned {| holds := holds x; settable := true |}
  else Panicked "reflect: reflect.Value.Set using unaddressable value".

(** [v.Elem().Set(x)] for a pointer [v]: the pointer with its new target. *)
Definition SetElem (v : Value) (x : Value) : outcome Value :=
  match holds v with
  | VPtr e (Some _) =>
      Returned {| holds := VPtr e (Some (holds x)); settable := settable v |}
  | _ => Panicked "reflect: call of reflect.Value.Set on zero Value"
  end.

(** [reflect.Append(s, x)]; appending to a nil slice allocates. *)
Definition Append (s : Value) (x : Value) : outcome Value :=
  match holds s with
  | VSlice e None =>
      Returned {| holds := VSlice e (Some [holds x]); settable := false |}
  | VSlice e (Some l) =>
      Returned {| holds := VSlice e (Some (l ++ [holds x])%list);
                  settable := false |}
  | _ => Panicked "reflect: call of reflect.Append on non-slice Value"
  end.

(** [elem.Field(idx).Addr().Interface()]: a pointer to the field. *)
Definition FieldAddr (elem : Value) (idx : nat) : outcome fieldAddr :=
  match holds elem with
  | VStruct n fs =>
      if (idx <? length fs)%nat then
        if settable elem
        then Returned {| inStruct := n; fieldIndex := idx |}
        else Panicked "reflect.Value.Addr of unaddressable value"
      else Panicked "reflect: Field index out of range"
  | _ => Panicked "reflect: call of reflect.Value.Field on non-struct Value"
  end.

(** the zero value of a type *)
Definition Zero `{Types} (t : rtype) : value :=
  match t with
  | TInt => VInt 0
  | TString => VString ""
  | TMap => VMap []
  | TPtr e => VPtr e None
  | TSlice e => VSlice e None
  | TStruct n => VStruct n (zeroFields n)
  end.

(** [reflect.New(t)]: a pointer to a new zero value. *)
Definition New `{Types} (t : rtype) : Value :=
  {| holds := VPtr t (Some (Zero t)); settable := false |}.

(** The loop [for v.Kind() == reflect.Ptr && !v.IsNil() { v = v.Elem() }],
    from the value [x] held, settable or not: down the pointers to the
    first value that is not a non-nil pointer. *)
Fixpoint derefFrom (x : value) (s : bool) : Value :=
  match x with
  | VPtr _ (Some y) => derefFrom y true
  | _ => {| holds := x; settable := s |}
  end.

Definition derefLoop (v : Value) : Value := derefFrom (holds v) (settable v).

(** The struct behind [elem] once Scan has stored [vals] through [dest]. *)
Definition Stored (elem : Value) (dest : list fieldAddr) (vals : list value)
  : Value :=
  match holds elem with
  | VStruct n fs =>
      {| holds := VStruct n (storeAll fs dest vals); settable := settable elem |}
  | _ => elem
  end.

(** the pointer [reflect.New] gave, to the struct as it is now *)
Definition PtrTo (t : rtype) (elem : Value) : Value :=
  {| holds := VPtr t (Some (holds elem)); settable := false |}.

End reflect.

(** ** executor.go *)

(** A Go [error], by its message. *)
Inductive error : Type := Err (msg : string).

(** [database/sql.ErrNoRows] and the package's re-export of it, db.go:9. *)
Definition sql_ErrNoRows : error := Err "sql: no rows in result set".
Definition ErrNoRows : error := sql_ErrNoRows.

(** The [fieldInfo] of a struct type (its declaration is not part of the
    files at hand; the code reads [names] and [indexes]): the column names
    and, in step, the indexes of the fields that hold them. *)
Record fieldInfo : Type := { names : list string; indexes : list nat }.

(** Modelled as a parameter: [getFieldInfo], the type inspector, is
    missing from the sources at hand. *)
Class Inspector : Type := { getFieldInfo : rtype -> fieldInfo }.

(** A row of a [*sql.Rows]: its [Scan] takes the destination pointers and
    fails, or yields the values it stores through them, in order. *)
Record Row : Type := { Scan : list fieldAddr -> list value + error }.

(** [type sqlExecutor interface], over the state of whatever implements
    it.  A call fails with an error or yields its result. *)
Class sqlExecutor : Type := {
  ExeState : Type;
  Result : Type;
  Exec : string -> list value -> ExeState -> (Result + error) * ExeState;
  Query : string -> list value -> ExeState -> (list Row + error) * ExeState;
  QueryRow : string -> list value -> ExeState -> Row * ExeState
}.

(** What the executor does to the world around it, in order. *)
Inductive event : Type :=
| LogInfoCall (query : string) (args : list value)
| ExecCall (query : string) (args : list value)
| QueryCall (query : string) (args : list value)
| ScanCall (row : Row) (dest : list fieldAddr)
| CloseCall.

(** [type executor struct { exe; typeToFieldInfo }], with the trace. *)
Record executor `{sqlExecutor} : Type := {
  exe : ExeState;
  typeToFieldInfo : list (rtype * fieldInfo);
  trace : list event
}.

(** [sync.Map.Load] and [Store] *)
Fixpoint Load (m : list (rtype * fieldInfo)) (t : rtype) : option fieldInfo :=
  match m with
  | [] => None
  | (k, info) :: rest => if rtype_eq_dec k t then Some info else Load rest t
  end.

Definition Store (m : list (rtype * fieldInfo)) (t : rtype) (info : fieldInfo)
  : list (rtype * fieldInfo) := (t, info) :: m.

(** [record.(map[string]interface{})] *)
Definition asMap (record : value) : option (list (string * value)) :=
  match record with
  | VMap m => Some m
  | _ => None
  end.

(** [for i, f := range fields { values[i] = f.Interface() }], from index
    [i] on; an index beyond [values] is a run-time panic. *)
Fixpoint assignEach (values : list value) (i : nat) (fields : list reflect.Value)
  : outcome (list value) :=
  match fields with
  | [] => Returned values
  | f :: rest =>
      if (i <? length values)%nat
      then assignEach (setNth i (reflect.Interface f) values) (S i) rest
      else Panicked "runtime error: index out of range"
  end.


Section Executor.

Context {X : sqlExecutor} {I : Inspector} {T : Types}.

Local Open Scope go_scope.

(** the monad of the methods of [*executor] *)
Definition E (A : Type) : Type := M executor A.

Definition emit (ev : event) : E unit :=
  fun e => (Returned tt,
            {| exe := exe e; typeToFieldInfo := typeToFieldInfo e;
               trace := (trace e ++ [ev])%list |}).

(** [gox.LogInfo(query, args)]: the observability sink. *)
Definition LogInfo (query : string) (args : list value) : E unit :=
  emit (LogInfoCall query args).

(** [e.exe.Exec(query, args...)] *)
Definition callExec (query : string) (args : list value) : E (Result + error) :=
  fun e =>
    let (r, s) := Exec query args (exe e) in
    (Returned r,
     {| exe := s; typeToFieldInfo := typeToFieldInfo e;
        trace := (trace e ++ [ExecCall query args])%list |}).

(** [e.exe.Query(query, args...)] *)
Definition callQuery (query : string) (args : list value)
  : E (list Row + error) :=
  fun e =>
    let (r, s) := Query query args (exe e) in
    (Returned r,
     {| exe := s; typeToFieldInfo := typeToFieldInfo e;
        trace := (trace e ++ [QueryCall query args])%list |}).

(** [rows.Scan(fields...)] on the current row *)
Definition callScan (row : Row) (fields : list fieldAddr)
  : E (list value + error) :=
  _ <- emit (ScanCall row fields) ;;
  ret (Scan row fields).

(** [rows.Close()] *)
Definition closeRows (e : executor) : executor :=
  {| exe := exe e; typeToFieldInfo := typeToFieldInfo e;
     trace := (trace e ++ [CloseCall])%list |}.

(** The cache lookup of executor.go:37-43 and 178-184: the cached
    [fieldInfo] of the type, or a new one, stored. *)
Definition cachedFieldInfo (t : rtype) : E fieldInfo :=
  fun e =>
    match Load (typeToFieldInfo e) t with
    | Some info => (Returned info, e)
    | None =>
        let info := getFieldInfo t in
        (Returned info,
         {| exe := exe e;
            typeToFieldInfo := Store (typeToFieldInfo e) t info;
            trace := trace e |})
    end.

(** executor.go:23 *)
Definition getFields (i : value) : E (list string * list reflect.Value) :=
  let v := reflect.ValueOf i in
  if negb (reflect.IsValid v) then panic "invalid" else
  let v := reflect.derefLoop v in
  if negb (reflect.Kind_eqb (reflect.Kind_ v) reflect.Struct)
  then panic "not struct" else
  t <- lift (reflect.Type_ v) ;;
  info <- cachedFieldInfo t ;;
  values <- lift (mapOutcome (reflect.Field v) (indexes info)) ;;
  ret (names info, values).

(** executor.go:53 *)
Definition getFieldValues (i : value) : E (list string * list value) :=
  ' (columns, fields) <- getFields i ;;
  values <- lift (assignEach (repeat VNil (length columns)) 0 fields) ;;
  ret (columns, values).

(** The opening block of [Insert], [Update] and [Upsert] (executor.go:63-72,
    89-98, 120-129): the columns and values of a [map[string]interface{}]
    in the order its [range] yields them, or else of a struct. *)
Definition columnsAndValues (record : value) : E (list string * list value) :=
  match asMap record with
  | Some m => ret (map fst m, map snd m)
  | None => getFieldValues record
  end.

(** executor.go:62 *)
Definition Insert (table : string) (record : value) : E (Result + error) :=
  ' (columns, values) <- columnsAndValues record ;;
  let buf := Buffer.empty in
  let buf := Buffer.WriteString buf "insert into " in
  let buf := Buffer.WriteString buf table in
  let buf := Buffer.WriteString buf "(" in
  let buf := Buffer.WriteString buf (strings.Join columns ",") in
  let buf := Buffer.WriteString buf ") values (" in
  let buf := Buffer.WriteString buf (strings.Repeat "?," (length columns)) in
  buf <- lift (Buffer.Truncate buf (Buffer.Len buf - 1)) ;;
  let buf := Buffer.WriteString buf ")" in
  let query := Buffer.String_ buf in
  _ <- LogInfo query values ;;
  callExec query values.

(** [for _, c := range columns { buf.WriteString(c); buf.WriteString(" = ?,") }] *)
Definition writeAssignments (buf : Buffer.t) (columns : list string) : Buffer.t :=
  fold_left
    (fun b c => Buffer.WriteString (Buffer.WriteString b c) " = ?,")
    columns buf.

(** executor.go:88 *)
Definition Update (table : string) (record : value) (where_ : string)
  (args : list value) : E (Result + error) :=
  ' (columns, values) <- columnsAndValues record ;;
  let buf := Buffer.empty in
  let buf := Buffer.WriteString buf "update " in
  let buf := Buffer.WriteString buf table in
  let buf := Buffer.WriteString buf " set " in
  let buf := writeAssignments buf columns in
  buf <- lift (Buffer.Truncate buf (Buffer.Len buf - 1)) ;;
  let buf :=
    if (0 <? String.length where_)%nat
    then Buffer.WriteString (Buffer.WriteString buf " where ") where_
    else buf in
  let values := (values ++ args)%list in
  let query := Buffer.String_ buf in
  _ <- LogInfo query values ;;
  callExec query values.

(** executor.go:119 *)
Definition Upsert (table : string) (record : value) : E (Result + error) :=
  ' (columns, values) <- columnsAndValues record ;;
  let buf := Buffer.empty in
  let buf := Buffer.WriteString buf "insert into " in
  let buf := Buffer.WriteString buf table in
  let buf := Buffer.WriteString buf "(" in
  let buf := Buffer.WriteString buf (strings.Join columns ",") in
  let buf := Buffer.WriteString buf ") values (" in
  let buf := Buffer.WriteString buf (strings.Repeat "?," (length columns)) in
  buf <- lift (Buffer.Truncate buf (Buffer.Len buf - 1)) ;;
  let buf := Buffer.WriteString buf ") on duplicate key set " in
  let buf := writeAssignments buf columns in
  buf <- lift (Buffer.Truncate buf (Buffer.Len buf - 1)) ;;
  let values := (values ++ values)%list in
  let query := Buffer.String_ buf in
  _ <- LogInfo query values ;;
  callExec query values.

(** The loop [for rows.Next() { ... }] of executor.go:207-225 over the rows
    left; [inr err] is the [return err] of line 217. *)
Fixpoint scanRows (fi : fieldInfo) (elemType : rtype) (isPtr : bool)
  (rows : list Row) (sliceValue : reflect.Value)
  : E (reflect.Value + error) :=
  match rows with
  | [] => ret (inl sliceValue)
  | row :: rest =>
      let ptrToElem := reflect.New elemType in
      elem <- lift (reflect.Elem ptrToElem) ;;
      fields <- lift (mapOutcome (reflect.FieldAddr elem) (indexes fi)) ;;
      r <- callScan row fields ;;
      match r with
      | inr err => ret (inr err)
      | inl vals =>
          let elem := reflect.Stored elem fields vals in
          let ptrToElem := reflect.PtrTo elemType elem in
          sliceValue <-
            lift (if isPtr
                  then reflect.Append sliceValue ptrToElem
                  else reflect.Append sliceValue elem) ;;
          scanRows fi elemType isPtr rest sliceValue
      end
  end.

(** executor.go:152.  The result is [records] as it is when the call
    returns (the pointer with the slice it now points to) and the error. *)
Definition Select (table : string) (records : value) (where_ : string)
  (args : list value) : E (value * option error) :=
  let v := reflect.ValueOf records in
  if negb (reflect.Kind_eqb (reflect.Kind_ v) reflect.Ptr)
  then panic "must be a pointer to slice" else
  if reflect.IsNil v && negb (reflect.CanSet v)
  then panic "cannot be set value" else
  vt <- lift (reflect.Type_ v) ;;
  sliceType <- lift (reflect.TypeElem vt) ;;
  if negb (reflect.Kind_eqb (reflect.TypeKind sliceType) reflect.Slice)
  then panic "must be a pointer to slice" else
  elemType <- lift (reflect.TypeElem sliceType) ;;
  ' (elemType, isPtr) <-
    (if reflect.Kind_eqb (reflect.TypeKind elemType) reflect.Ptr
     then t <- lift (reflect.TypeElem elemType) ;; ret (t, true)
     else ret (elemType, false)) ;;
  if negb (reflect.Kind_eqb (reflect.TypeKind elemType) reflect.Struct)
  then panic "slice element must be a struct or pointer to struct" else
  fi <- cachedFieldInfo elemType ;;
  let buf := Buffer.empty in
  let buf := Buffer.WriteString buf "select " in
  let buf := Buffer.WriteString buf (strings.Join (names fi) ",") in
  let buf := Buffer.WriteString buf " from " in
  let buf := Buffer.WriteString buf table in
  let buf :=
    if (0 <? String.length where_)%nat
    then Buffer.WriteString (Buffer.WriteString buf " where ") where_
    else buf in
  let query := Buffer.String_ buf in
  _ <- LogInfo query args ;;
  r <- callQuery query args ;;
  match r with
  | inr err => ret (records, Some err)
  | inl rows =>
      defer closeRows
        (v <- (if reflect.IsNil v
               then lift (reflect.Set_ v (reflect.New sliceType))
               else ret v) ;;
         sliceValue <- lift (reflect.Elem v) ;;
         r <- scanRows fi elemType isPtr rows sliceValue ;;
         match r with
         | inr err => ret (reflect.holds v, Some err)
         | inl sliceValue =>
             v <- lift (reflect.SetElem v sliceValue) ;;
             ret (reflect.holds v, None)
         end)
  end.

(** executor.go:230 *)
Definition SelectOne (table : string) (record : value) (where_ : string)
  (args : list value) : E (option error) :=
  ret None.

(** executor.go:234 *)
Definition Delete (table : string) (where_ : string) (args : list value)
  : E (Result + error) :=
  let buf := Buffer.empty in
  let buf := Buffer.WriteString buf "delete from " in
  let buf := Buffer.WriteString buf table in
  let buf :=
    if (0 <? String.length where_)%nat
    then Buffer.WriteString (Buffer.WriteString buf " where ") where_
    else buf in
  let query := Buffer.String_ buf in
  _ <- LogInfo query args ;;
  callExec query args.

End Executor.

(** ** db.go *)

(** [database/sql]: the state behind a [*sql.DB] and what [Begin] does to
    it. *)
Class database_sql : Type := {
  SqlState : Type;
  SqlTx : Type;
  sql_Begin : SqlState -> (SqlTx + error) * SqlState
}.

(** [type DB struct { db *sql.DB; driverName string }]; the [*sql.DB]
    behind [db] is the [SqlState] of the world. *)
Record DB : Type := { driverName : string }.

(** [Tx], as [DB.Begin] builds it.  A [*Tx] is an [option Tx], nil being
    [None]. *)
Record Tx `{database_sql} : Type := { tx : SqlTx; txDriverName : string }.

(** Modelled as parameters: the methods of [*Tx] that the batch operations
    call are missing from the sources at hand.  Each takes its receiver,
    nil or not, and returns an error or nil, or panics. *)
Class TxMethods `{database_sql} : Type := {
  Tx_Insert : option Tx -> value -> SqlState -> outcome (option error) * SqlState;
  Tx_Update : option Tx -> value -> SqlState -> outcome (option error) * SqlState;
  Tx_Save : option Tx -> value -> SqlState -> outcome (option error) * SqlState;
  Tx_Rollback : option Tx -> SqlState -> outcome (option error) * SqlState;
  Tx_Commit : option Tx -> SqlState -> outcome (option error) * SqlState
}.

Inductive dbEvent `{database_sql} : Type :=
| BeginCall
| TxInsertCall (t : option Tx) (v : value)
| TxUpdateCall (t : option Tx) (v : value)
| TxSaveCall (t : option Tx) (v : value)
| RollbackCall (t : option Tx)
| CommitCall (t : option Tx).

Record sqlWorld `{database_sql} : Type := {
  sqlState : SqlState;
  calls : list dbEvent
}.

Section Database.

Context {S : database_sql} {TM : TxMethods}.

Local Open Scope go_scope.

Definition D (A : Type) : Type := M sqlWorld A.

(** a call of a collaborator: recorded, then run on the state *)
Definition call {A : Type} (ev : dbEvent) (f : SqlState -> outcome A * SqlState)
  : D A :=
  fun w =>
    let (r, s) := f (sqlState w) in
    (r, {| sqlState := s; calls := (calls w ++ [ev])%list |}).

(** db.go:60 *)
Definition Begin (d : DB) : D (option Tx * option error) :=
  r <- call BeginCall (fun s => let (r, s') := sql_Begin s in (Returned r, s')) ;;
  match r with
  | inr err => ret (None, Some err)
  | inl tx => ret (Some {| tx := tx; txDriverName := driverName d |}, None)
  end.

(** db.go:88 *)
Definition MultiInsert (d : DB) (values : list value) : D (option error) :=
  ' (tx, err) <- Begin d ;;
  r <- rangeReturn
         (fun v =>
            err <- call (TxInsertCall tx v) (Tx_Insert tx v) ;;
            match err with
            | Some e =>
                _ <- call (RollbackCall tx) (Tx_Rollback tx) ;;
                ret (Some e)
            | None => ret None
            end)
         values ;;
  match r with
  | Some e => ret (Some e)
  | None => call (CommitCall tx) (Tx_Commit tx)
  end.

(** db.go:104 *)
Definition MultiUpdate (d : DB) (values : list value) : D (option error) :=
  ' (tx, err) <- Begin d ;;
  r <- rangeReturn
         (fun v =>
            err <- call (TxUpdateCall tx v) (Tx_Update tx v) ;;
            match err with
            | Some e =>
                _ <- call (RollbackCall tx) (Tx_Rollback tx) ;;
                ret (Some e)
            | None => ret None
            end)
         values ;;
  match r with
  | Some e => ret (Some e)
  | None => call (CommitCall tx) (Tx_Commit tx)
  end.

(** db.go:120 *)
Definition MultiSave (d : DB) (values : list value) : D (option error) :=
  ' (tx, err) <- Begin d ;;
  r <- rangeReturn
         (fun v =>
            err <- call (TxSaveCall tx v) (Tx_Save tx v) ;;
            match err with
            | Some e =>
                _ <- call (RollbackCall tx) (Tx_Rollback tx) ;;
                ret (Some e)
            | None => ret None
            end)
         values ;;
  match r with
  | Some e => ret (Some e)
  | None => call (CommitCall tx) (Tx_Commit tx)
  end.

End Database.

(** The three batch operations, to state what they share. *)
Inductive batchOp : Type := OpInsert | OpUpdate | OpSave.

Section Batch.

Context {S : database_sql} {TM : TxMethods}.

(** the operation itself *)
Definition runBatch (op : batchOp) : DB -> list value -> D (option error) :=
  match op with
  | OpInsert => MultiInsert
  | OpUpdate => MultiUpdate
  | OpSave => MultiSave
  end.

(** the method of [*Tx] it calls on each record *)
Definition methodOf (op : batchOp)
  : option Tx -> value -> SqlState -> outcome (option error) * SqlState :=
  match op with
  | OpInsert => Tx_Insert
  | OpUpdate => Tx_Update
  | OpSave => Tx_Save
  end.

(** and how that call shows in the trace *)
Definition callOf (op : batchOp) : option Tx -> value -> dbEvent :=
  match op with
  | OpInsert => TxInsertCall
  | OpUpdate => TxUpdateCall
  | OpSave => TxSaveCall
  end.

(** the body of the loop of each: the record through the method and, on
    an error, the rollback and the early return *)
Definition eachRecord (op : batchOp) (tx : option Tx) (v : value)
  : D (option error) :=
  (err <- call (callOf op tx v) (methodOf op tx v) ;;
   match err with
   | Some e =>
       _ <- call (RollbackCall tx) (Tx_Rollback tx) ;;
       ret (Some e)
   | None => ret None
   end)%go.

(** [applied op t s vs s']: from state [s], the method applied to each
    record of [vs] in turn returns nil, and leaves state [s']. *)
Inductive applied (op : batchOp) (t : option Tx)
  : SqlState -> list value -> SqlState -> Prop :=
| applied_nil (s : SqlState) : applied op t s [] s
| applied_cons (s s1 s2 : SqlState) (v : value) (vs : list value) :
    methodOf op t v s = (Returned None, s1) ->
    applied op t s1 vs s2 ->
    applied op t s (v :: vs) s2.

End Batch.

(** ** The shape of the generated text *)

(** [?,?,...,?]: [n] placeholders *)
Definition placeholders (n : nat) : string :=
  strings.Join (repeat "?" n) ",".

(** [c1 = ?,c2 = ?,...]: one placeholder per column *)
Definition assignments (columns : list string) : string :=
  strings.Join (map (fun c => c ++ " = ?") columns) ",".

(** a WHERE clause, when there is one *)
Definition whereClause (where_ : string) : string :=
  match where_ with
  | EmptyString => ""
  | _ => " where " ++ where_
  end.

(** the text of an INSERT over at least one column *)
Definition insertText (table : string) (columns : list string) : string :=
  "insert into " ++ table ++ "(" ++ strings.Join columns "," ++ ") values ("
  ++ placeholders (length columns) ++ ")".

(** the text of an UPDATE over at least one column, before its WHERE *)
Definition updateText (table : string) (columns : list string) : string :=
  "update " ++ table ++ " set " ++ assignments columns.

(** [records] is a pointer to a slice, going by its type *)
Definition isPointerToSlice (records : value) : bool :=
  match records with
  | VPtr (TSlice _) _ => true
  | _ => false
  end.

(** a slice element type that Select takes: a struct or a pointer to one *)
Definition isStructOrPointerToStruct (elem : rtype) : bool :=
  match elem with
  | TStruct _ => true
  | TPtr (TStruct _) => true
  | _ => false
  end.

(** the elements of a slice, none for a nil slice *)
Definition elements (items : option (list value)) : list value :=
  match items with
  | Some l => l
  | None => []
  end.

(** the text of a SELECT *)
Definition selectText (table : string) (cols : list string) (where_ : string)
  : string :=
  "select " ++ strings.Join cols "," ++ " from " ++ table ++ whereClause where_.

(** the destination pointers of one row: the fields the columns are cached
    for, in the order of the columns *)
Definition destinations (n : string) (fi : fieldInfo) : list fieldAddr :=
  map (fun idx => {| inStruct := n; fieldIndex := idx |}) (indexes fi).

(** the element appended for a row: the struct with the fields as Scan left
    them, or a pointer to it *)
Definition element (isPtr : bool) (n : string) (fs : list value) : value :=
  if isPtr then VPtr (TStruct n) (Some (VStruct n fs)) else VStruct n fs.

Section Resolved.

Context {X : sqlExecutor} {I : Inspector}.

(** the [fieldInfo] the executor works with for a type: the cached one,
    or the inspector's *)
Definition fieldInfoOf (e : executor) (t : rtype) : fieldInfo :=
  match Load (typeToFieldInfo e) t with
  | Some info => info
  | None => getFieldInfo t
  end.

(** the cache once the type has been looked up *)
Definition cacheAfter (e : executor) (t : rtype) : list (rtype * fieldInfo) :=
  match Load (typeToFieldInfo e) t with
  | Some _ => typeToFieldInfo e
  | None => Store (typeToFieldInfo e) t (getFieldInfo t)
  end.

(** the executor once it has looked up type [t] *)
Definition lookedUp (e : executor) (t : rtype) : executor :=
  {| exe := exe e; typeToFieldInfo := cacheAfter e t; trace := trace e |}.

(** the executor once [events] have happened and left its collaborator in
    state [s] *)
Definition after (e : executor) (s : ExeState) (events : list event)
  : executor :=
  {| exe := s; typeToFieldInfo := typeToFieldInfo e;
     trace := (trace e ++ events)%list |}.

End Resolved.

(** ** What an operation leaves of the executor *)

Section Kept.

Context {X : sqlExecutor} {I : Inspector}.

(** [e'] holds every cache entry [e] held and resolves every type to the
    [fieldInfo] [e] resolved it to. *)
Definition mappingKept (e e' : executor) : Prop :=
  (forall t info,
     Load (typeToFieldInfo e) t = Some info ->
     Load (typeToFieldInfo e') t = Some info) /\
  (forall t, fieldInfoOf e' t = fieldInfoOf e t).

(** [e'] has logged and run nothing more than [e]. *)
Definition nothingRun (e e' : executor) : Prop :=
  trace e' = trace e /\ exe e' = exe e.

(** a computation that takes every executor to one related to it by [R],
    however it ends *)
Definition preserves {A : Type} (R : executor -> executor -> Prop)
  (c : E A) : Prop :=
  forall e, R e (snd (c e)).

(** How a write operation ends, from executor [e]: it panics before
    anything is logged or run, or it logs one statement with its arguments,
    hands exactly those to [Exec], and returns what [Exec] returns. *)
Definition logsThenExecutes (e : executor)
  (r : outcome (Result + error) * executor) : Prop :=
  (exists m, fst r = Panicked m /\ nothingRun e (snd r)) \/
  (exists q a,
     fst r = Returned (fst (Exec q a (exe e))) /\
     exe (snd r) = snd (Exec q a (exe e)) /\
     trace (snd r) = (trace e ++ [LogInfoCall q a; ExecCall q a])%list).

End Kept.

(** ** A concrete program

    [type User struct { ID int `db:"id"`; Name string `db:"name"` }] over
    an executor that records the statements it is given and answers every
    query with two rows. *)

Module Sample.

Definition types : Types :=
  {| zeroFields := fun n =>
       if String.eqb n "User" then [VInt 0; VString ""] else [] |}.

Definition inspector : Inspector :=
  {| getFieldInfo := fun t =>
       if rtype_eq_dec t (TStruct "User")
       then {| names := ["id"; "name"]; indexes := [0; 1] |}
       else {| names := []; indexes := [] |} |}.

Definition rowOf (id : Z) (name : string) : Row :=
  {| Scan := fun dest =>
       if (length dest =? 2)%nat
       then inl [VInt id; VString name]
       else inr (Err "sql: expected 2 destination arguments in Scan") |}.

(** an executor whose queries match no row *)
Definition matchesNothing : sqlExecutor :=
  {| ExeState := list (string * list value);
     Result := nat;
     Exec := fun q args s => (inl (length s), (s ++ [(q, args)])%list);
     Query := fun q args s => (inl [], (s ++ [(q, args)])%list);
     QueryRow := fun q args s => (rowOf 0 "", (s ++ [(q, args)])%list) |}.

Definition executes : sqlExecutor :=
  {| ExeState := list (string * list value);
     Result := nat;
     Exec := fun q args s => (inl (length s), (s ++ [(q, args)])%list);
     Query := fun q args s =>
       (inl [rowOf 7 "ann"; rowOf 8 "bob"], (s ++ [(q, args)])%list);
     QueryRow := fun q args s => (rowOf 7 "ann", (s ++ [(q, args)])%list) |}.

(** a fresh executor: nothing run, nothing cached *)
Definition fresh : @executor executes :=
  {| exe := [] : @ExeState executes; typeToFieldInfo := []; trace := [] |}.

Definition ann : value := VStruct "User" [VInt 7; VString "ann"].
Definition bob : value := VStruct "User" [VInt 8; VString "bob"].
Definition carl : value := VStruct "User" [VInt 9; VString "carl"].

(** [database/sql] handing out numbered transactions *)
Definition begins : database_sql :=
  {| SqlState := nat; SqlTx := nat; sql_Begin := fun s => (inl s, S s) |}.

(** [database/sql] unable to open a transaction *)
Definition refuses : database_sql :=
  {| SqlState := nat; SqlTx := nat;
     sql_Begin := fun s => (inr (Err "dial tcp: connection refused"), s) |}.

(** Transaction methods that dereference their receiver, and a store in
    which user 8 exists already. *)
Definition perRecord {S : database_sql} (t : option (@Tx S)) (v : value)
  (s : @SqlState S) : outcome (option error) * @SqlState S :=
  match t with
  | None =>
      (Panicked "runtime error: invalid memory address or nil pointer dereference", s)
  | Some _ =>
      match v with
      | VStruct _ (VInt 8 :: _) => (Returned (Some (Err "Duplicate entry")), s)
      | _ => (Returned None, s)
      end
  end.

Definition finish {S : database_sql} (t : option (@Tx S)) (s : @SqlState S)
  : outcome (option error) * @SqlState S :=
  match t with
  | None =>
      (Panicked "runtime error: invalid memory address or nil pointer dereference", s)
  | Some _ => (Returned None, s)
  end.

Definition txMethods (S : database_sql) : @TxMethods S :=
  {| Tx_Insert := perRecord; Tx_Update := perRecord; Tx_Save := perRecord;
     Tx_Rollback := finish; Tx_Commit := finish |}.

Definition world0 (S : database_sql) (s : @SqlState S) : @sqlWorld S :=
  {| sqlState := s; calls := [] |}.

(** an executor that has lost its connection *)
Definition disconnected : sqlExecutor :=
  {| ExeState := list (string * list value);
     Result := nat;
     Exec := fun q args s => (inr (Err "driver: bad connection"), s);
     Query := fun q args s => (inr (Err "driver: bad connection"), s);
     QueryRow := fun q args s => (rowOf 0 "", s) |}.

(** a row whose first column is NULL: it does not scan into an [int] *)
Definition nullRow : Row :=
  {| Scan := fun dest =>
       inr (Err "sql: Scan error on column index 0: converting NULL to int is unsupported") |}.

(** an executor whose second row does not scan *)
Definition halfway : sqlExecutor :=
  {| ExeState := list (string * list value);
     Result := nat;
     Exec := fun q args s => (inl (length s), (s ++ [(q, args)])%list);
     Query := fun q args s =>
       (inl [rowOf 7 "ann"; nullRow; rowOf 8 "bob"], (s ++ [(q, args)])%list);
     QueryRow := fun q args s => (rowOf 7 "ann", (s ++ [(q, args)])%list) |}.


(** transaction methods that panic on what is no struct, as the reflective
    ones do *)
Definition perRecordStrict {S : database_sql} (t : option (@Tx S)) (v : value)
  (s : @SqlState S) : outcome (option error) * @SqlState S :=
  match v with
  | VStruct _ _ => perRecord t v s
  | _ => (Panicked "not struct", s)
  end.

Definition txMethodsStrict (S : database_sql) : @TxMethods S :=
  {| Tx_Insert := perRecordStrict; Tx_Update := perRecordStrict;
     Tx_Save := perRecordStrict;
     Tx_Rollback := finish; Tx_Commit := finish |}.

End Sample.

(** * Properties *)

(** ** Strings and buffers *)

Lemma append_assoc (a b c : string) : (a ++ b) ++ c = a ++ (b ++ c).
Proof. induction a as [|x a IH]; simpl; [reflexivity | now rewrite IH]. Qed.

Lemma append_nil_r (a : string) : a ++ "" = a.
Proof. induction a as [|x a IH]; simpl; [reflexivity | now rewrite IH]. Qed.

Lemma length_append (a b : string) :
  String.length (a ++ b) = String.length a + String.length b.
Proof. induction a as [|x a IH]; simpl; [reflexivity | now rewrite IH]. Qed.

Lemma take_append (a b : string) : strings.take (String.length a) (a ++ b) = a.
Proof. induction a as [|x a IH]; simpl; [reflexivity | now rewrite IH]. Qed.

(** Truncating by one drops the byte written last. *)
Lemma Truncate_last (b : Buffer.t) (c : ascii) :
  Buffer.Truncate (b ++ String c "") (Buffer.Len (b ++ String c "") - 1)
  = Returned b.
Proof.
  unfold Buffer.Truncate, Buffer.Len.
  rewrite length_append. simpl String.length.
  replace (Z.of_nat (String.length b + 1) - 1)%Z
    with (Z.of_nat (String.length b)) by lia.
  rewrite Nat2Z.id, take_append.
  destruct (Z.of_nat (String.length b) <? 0)%Z eqn:H1;
    [apply Z.ltb_lt in H1; lia|].
  destruct (Z.of_nat (String.length b + 1) <? Z.of_nat (String.length b))%Z eqn:H2;
    [apply Z.ltb_lt in H2; lia|].
  reflexivity.
Qed.

Lemma Count_append (c : ascii) (a b : string) :
  strings.Count c (a ++ b) = strings.Count c a + strings.Count c b.
Proof. induction a as [|x a IH]; simpl; [reflexivity | rewrite IH; lia]. Qed.

Lemma Join_cons2 (a b : string) (rest : list string) (sep : string) :
  strings.Join (a :: b :: rest) sep = a ++ sep ++ strings.Join (b :: rest) sep.
Proof. reflexivity. Qed.

(** [n + 1] repetitions of [?,] are the joined placeholders and a comma. *)
Lemma Repeat_placeholders (n : nat) :
  strings.Repeat "?," (S n) = placeholders (S n) ++ ",".
Proof.
  unfold placeholders. induction n as [|n IH].
  - reflexivity.
  - change (strings.Repeat "?," (S (S n))) with ("?," ++ strings.Repeat "?," (S n)).
    rewrite IH. change (repeat "?" (S (S n))) with ("?" :: "?" :: repeat "?" n).
    rewrite Join_cons2. reflexivity.
Qed.

Lemma Count_placeholders (n : nat) : strings.Count "?" (placeholders n) = n.
Proof.
  unfold placeholders. induction n as [|n IH]; [reflexivity|].
  destruct n as [|n]; [reflexivity|].
  change (repeat "?" (S (S n))) with ("?" :: "?" :: repeat "?" n).
  rewrite Join_cons2, !Count_append.
  change ("?" :: repeat "?" n) with (repeat "?" (S n)). rewrite IH.
  reflexivity.
Qed.

Lemma writeAssignments_from (cs : list string) (buf : Buffer.t) :
  writeAssignments buf cs = buf ++ writeAssignments "" cs.
Proof.
  unfold writeAssignments, Buffer.WriteString.
  revert buf. induction cs as [|c cs IH]; intro buf; simpl.
  - now rewrite append_nil_r.
  - rewrite IH. rewrite (IH (c ++ " = ?,")). now rewrite !append_assoc.
Qed.

(** The loop over a non-empty column list writes the assignments, each
    followed by a comma. *)
Lemma writeAssignments_cons (c : string) (cs : list string) (buf : Buffer.t) :
  writeAssignments buf (c :: cs) = buf ++ assignments (c :: cs) ++ ",".
Proof.
  rewrite writeAssignments_from. f_equal.
  revert c. induction cs as [|c' cs IH]; intro c.
  - unfold writeAssignments, assignments, Buffer.WriteString. simpl.
    now rewrite append_assoc.
  - change (writeAssignments "" (c :: c' :: cs))
      with (writeAssignments (c ++ " = ?,") (c' :: cs)).
    rewrite writeAssignments_from, IH.
    unfold assignments. cbn [map]. rewrite Join_cons2.
    now rewrite !append_assoc.
Qed.

(** ** Reading the fields of a struct *)

Lemma setNth_length {A : Type} (i : nat) (x : A) (l : list A) :
  length (setNth i x l) = length l.
Proof.
  revert i. induction l as [|y l IH]; intros [|i]; simpl; auto.
Qed.

Lemma setNth_middle {A : Type} (done rest : list A) (x y : A) :
  setNth (length done) x (done ++ y :: rest)%list = (done ++ x :: rest)%list.
Proof. induction done as [|d done IH]; simpl; [reflexivity | now rewrite IH]. Qed.

Lemma assignEach_length (fields : list reflect.Value) :
  forall values i vs,
    assignEach values i fields = Returned vs -> length vs = length values.
Proof.
  induction fields as [|f fields IH]; intros values i vs H; simpl in H.
  - now inversion H.
  - destruct (i <? length values)%nat; [|discriminate].
    apply IH in H. now rewrite setNth_length in H.
Qed.

(** With room for every field, the loop fills the slice with the fields'
    values in order. *)
Lemma assignEach_fill (fields : list reflect.Value) :
  forall done rest,
    length rest = length fields ->
    assignEach (done ++ rest)%list (length done) fields
    = Returned (done ++ map reflect.Interface fields)%list.
Proof.
  induction fields as [|f fields IH]; intros done rest Hlen.
  - destruct rest; [reflexivity | discriminate].
  - destruct rest as [|r rest]; [discriminate|]. simpl in Hlen.
    cbn [assignEach].
    replace (length done <? length (done ++ r :: rest)%list)%nat with true
      by (symmetry; apply Nat.ltb_lt; rewrite length_app; simpl; lia).
    rewrite setNth_middle.
    replace (done ++ reflect.Interface f :: rest)%list
      with ((done ++ [reflect.Interface f]) ++ rest)%list
      by (now rewrite <- app_assoc).
    replace (S (length done)) with (length (done ++ [reflect.Interface f])%list)
      by (rewrite length_app; simpl; lia).
    rewrite IH by lia. cbn [map]. now rewrite <- app_assoc.
Qed.

Lemma mapOutcome_Field (n : string) (fs : list value) (s : bool)
  (idxs : list nat) :
  Forall (fun idx => idx < length fs) idxs ->
  mapOutcome (reflect.Field {| reflect.holds := VStruct n fs; reflect.settable := s |}) idxs
  = Returned (map (fun idx => {| reflect.holds := nth idx fs VNil;
                                 reflect.settable := s |}) idxs).
Proof.
  induction 1 as [|idx idxs Hidx _ IH]; [reflexivity|].
  cbn [mapOutcome map]. rewrite IH. unfold reflect.Field. cbn [reflect.holds].
  destruct (nth_error fs idx) as [x|] eqn:Hx.
  - now rewrite (nth_error_nth _ _ VNil Hx).
  - apply nth_error_None in Hx. lia.
Qed.

Lemma derefFrom_struct (x : value) (s : bool) (n : string) (fs : list value) :
  reflect.holds (reflect.derefFrom x s) = VStruct n fs ->
  x <> VNil /\ asMap x = None /\
  exists s', reflect.derefFrom x s = {| reflect.holds := VStruct n fs; reflect.settable := s' |}.
Proof.
  intro H. repeat split.
  - intro Hx. subst x. discriminate H.
  - destruct x; try reflexivity. discriminate H.
  - destruct (reflect.derefFrom x s) as [h s'] eqn:E. simpl in H. subst h.
    now exists s'.
Qed.

Section ExecutorFacts.

Context {X : sqlExecutor} {I : Inspector} {T : Types}.

Lemma cachedFieldInfo_eq (t : rtype) (e : executor) :
  cachedFieldInfo t e = (Returned (fieldInfoOf e t), lookedUp e t).
Proof.
  unfold cachedFieldInfo, fieldInfoOf, lookedUp, cacheAfter.
  destruct (Load (typeToFieldInfo e) t); [destruct e|]; reflexivity.
Qed.

(** [getFieldValues] on a struct, or on pointers down to one, whose
    [fieldInfo] pairs every column with a field the struct has: the
    columns, and the fields' values in the order of the columns. *)
Lemma getFieldValues_struct (i : value) (e : executor) (n : string)
  (fs : list value) :
  reflect.holds (reflect.derefLoop (reflect.ValueOf i)) = VStruct n fs ->
  length (names (fieldInfoOf e (TStruct n)))
  = length (indexes (fieldInfoOf e (TStruct n))) ->
  Forall (fun idx => idx < length fs) (indexes (fieldInfoOf e (TStruct n))) ->
  getFieldValues i e
  = (Returned (names (fieldInfoOf e (TStruct n)),
               map (fun idx => nth idx fs VNil)
                   (indexes (fieldInfoOf e (TStruct n)))),
     lookedUp e (TStruct n)).
Proof.
  intros Hs Hlen Hidx.
  unfold reflect.derefLoop in Hs. cbn [reflect.ValueOf reflect.holds reflect.settable] in Hs.
  destruct (derefFrom_struct _ _ _ _ Hs) as (Hnil & _ & s' & Hd).
  unfold getFieldValues, getFields, bind.
  replace (reflect.IsValid (reflect.ValueOf i)) with true
    by (destruct i; try reflexivity; congruence).
  cbn [negb]. unfold reflect.derefLoop.
  cbn [reflect.ValueOf reflect.holds reflect.settable]. rewrite Hd.
  cbn [reflect.Kind_ reflect.holds reflect.Kind_eqb negb reflect.Type_ lift].
  rewrite cachedFieldInfo_eq. rewrite (mapOutcome_Field _ _ _ _ Hidx).
  cbn [ret]. 
  pose proof (assignEach_fill
    (map (fun idx => {| reflect.holds := nth idx fs VNil; reflect.settable := s' |})
         (indexes (fieldInfoOf e (TStruct n))))
    [] (repeat VNil (length (names (fieldInfoOf e (TStruct n)))))) as Hfill.
  cbn [app length] in Hfill. rewrite Hfill.
  - rewrite map_map. reflexivity.
  - now rewrite repeat_length, length_map.
Qed.

End ExecutorFacts.

Ltac reassoc := repeat rewrite append_assoc; reflexivity.

(** The buffer of [Insert] and [Upsert] up to the truncation, with at
    least one column: the trailing comma goes. *)
Lemma insert_buffer_truncated (table c : string) (cs : list string) :
  let columns := c :: cs in
  let buf := Buffer.empty in
  let buf := Buffer.WriteString buf "insert into " in
  let buf := Buffer.WriteString buf table in
  let buf := Buffer.WriteString buf "(" in
  let buf := Buffer.WriteString buf (strings.Join columns ",") in
  let buf := Buffer.WriteString buf ") values (" in
  let buf := Buffer.WriteString buf (strings.Repeat "?," (length columns)) in
  Buffer.Truncate buf (Buffer.Len buf - 1)
  = Returned ("insert into " ++ table ++ "(" ++ strings.Join columns ","
              ++ ") values (" ++ placeholders (length columns)).
Proof.
  intros columns. unfold Buffer.WriteString, Buffer.empty.
  subst columns. cbn [length]. rewrite Repeat_placeholders.
  match goal with
  | |- Buffer.Truncate ?b _ = Returned ?r =>
      replace b with (r ++ String "," "") by reassoc
  end.
  apply Truncate_last.
Qed.

(** Without a column the byte that goes is the opening parenthesis. *)
Lemma insert_buffer_truncated_nil (table : string) :
  let columns := @nil string in
  let buf := Buffer.empty in
  let buf := Buffer.WriteString buf "insert into " in
  let buf := Buffer.WriteString buf table in
  let buf := Buffer.WriteString buf "(" in
  let buf := Buffer.WriteString buf (strings.Join columns ",") in
  let buf := Buffer.WriteString buf ") values (" in
  let buf := Buffer.WriteString buf (strings.Repeat "?," (length columns)) in
  Buffer.Truncate buf (Buffer.Len buf - 1)
  = Returned ("insert into " ++ table ++ "() values ").
Proof.
  intros columns. unfold Buffer.WriteString, Buffer.empty.
  subst columns. cbn [length strings.Repeat strings.Join].
  match goal with
  | |- Buffer.Truncate ?b _ = Returned ?r =>
      replace b with (r ++ String "(" "") by reassoc
  end.
  apply Truncate_last.
Qed.

Section Statements.

Context {X : sqlExecutor} {I : Inspector} {T : Types}.

(** What [Insert] does once the columns and values are at hand, with at
    least one column. *)
Lemma Insert_runs (table : string) (record : value) (e e1 : executor)
  (c : string) (cs : list string) (vals : list value) :
  columnsAndValues record e = (Returned (c :: cs, vals), e1) ->
  let query := insertText table (c :: cs) in
  Insert table record e
  = (Returned (fst (Exec query vals (exe e1))),
     after e1 (snd (Exec query vals (exe e1)))
       [LogInfoCall query vals; ExecCall query vals]).
Proof.
  intros H query. unfold Insert, bind. rewrite H.
  pose proof (insert_buffer_truncated table c cs) as Hb. cbv zeta in Hb.
  cbv zeta. unfold lift. rewrite Hb.
  unfold LogInfo, emit, callExec, Buffer.String_, Buffer.WriteString.
  cbn [exe typeToFieldInfo trace].
  replace (("insert into " ++ table ++ "(" ++ strings.Join (c :: cs) ","
            ++ ") values (" ++ placeholders (length (c :: cs))) ++ ")")
    with query by (unfold query, insertText; reassoc).
  destruct (Exec query vals (exe e1)) as [r s]. unfold after. cbn [fst snd].
  now rewrite <- app_assoc.
Qed.

(** What [Insert] does without a column. *)
Lemma Insert_runs_nil (table : string) (record : value) (e e1 : executor)
  (vals : list value) :
  columnsAndValues record e = (Returned ([], vals), e1) ->
  let query := "insert into " ++ table ++ "() values )" in
  Insert table record e
  = (Returned (fst (Exec query vals (exe e1))),
     after e1 (snd (Exec query vals (exe e1)))
       [LogInfoCall query vals; ExecCall query vals]).
Proof.
  intros H query. unfold Insert, bind. rewrite H.
  pose proof (insert_buffer_truncated_nil table) as Hb. cbv zeta in Hb.
  cbv zeta. unfold lift. rewrite Hb.
  unfold LogInfo, emit, callExec, Buffer.String_, Buffer.WriteString.
  cbn [exe typeToFieldInfo trace].
  replace (("insert into " ++ table ++ "() values ") ++ ")")
    with query by (unfold query; reassoc).
  destruct (Exec query vals (exe e1)) as [r s]. unfold after. cbn [fst snd].
  now rewrite <- app_assoc.
Qed.

(** C3. For a typed record whose cached FieldInfo has N >= 1 columns, each
    paired with a field of the struct, Insert builds
    [insert into <table>(<c1,...,cN>) values (?,...,?)] with exactly N
    placeholders, and hands the executor N arguments, the i-th being the
    value of the field the i-th column is cached for. *)
Theorem Insert_placeholders_match_columns (table : string) (record : value)
  (e : executor) (n : string) (fs : list value) (N : nat) :
  reflect.holds (reflect.derefLoop (reflect.ValueOf record)) = VStruct n fs ->
  length (names (fieldInfoOf e (TStruct n))) = N ->
  length (indexes (fieldInfoOf e (TStruct n))) = N ->
  1 <= N ->
  Forall (fun idx => idx < length fs) (indexes (fieldInfoOf e (TStruct n))) ->
  let fi := fieldInfoOf e (TStruct n) in
  let values := map (fun idx => nth idx fs VNil) (indexes fi) in
  let query :=
    "insert into " ++ table ++ "(" ++ strings.Join (names fi) ","
    ++ ") values (" ++ placeholders N ++ ")" in
  strings.Count "?" (placeholders N) = N /\
  length values = N /\
  (forall i, i < N ->
     nth_error values i = nth_error fs (nth i (indexes fi) 0)) /\
  Insert table record e
  = (Returned (fst (Exec query values (exe e))),
     after (lookedUp e (TStruct n)) (snd (Exec query values (exe e)))
       [LogInfoCall query values; ExecCall query values]).
Proof.
  intros Hs Hn Hi HN Hidx fi values query.
  split; [apply Count_placeholders|].
  split; [unfold values; now rewrite length_map|].
  split.
  - intros i Hlt. unfold values. rewrite nth_error_map.
    rewrite (nth_error_nth' (indexes fi) 0) by (unfold fi; lia).
    cbn [option_map]. symmetry. apply nth_error_nth'.
    rewrite Forall_forall in Hidx. apply Hidx, nth_In. unfold fi. lia.
  - assert (Hcv : columnsAndValues record e
                  = (Returned (names fi, values), lookedUp e (TStruct n))).
    { unfold columnsAndValues.
      unfold reflect.derefLoop in Hs.
      destruct (derefFrom_struct _ _ _ _ Hs) as (_ & Hm & _).
      cbn [reflect.ValueOf reflect.holds] in Hm. rewrite Hm.
      apply getFieldValues_struct; [exact Hs | congruence | exact Hidx]. }
    unfold query. rewrite <- Hn. fold fi.
    destruct (names fi) as [|c cs] eqn:Hnames;
      [unfold fi in Hnames; rewrite Hnames in Hn; simpl in Hn; lia|].
    rewrite (Insert_runs table record e _ c cs values Hcv).
    reflexivity.
Qed.

End Statements.

Lemma Insert_placeholders_match_columns_witness :
  @Insert Sample.executes Sample.inspector "users"
    (VPtr (TStruct "User") (Some Sample.ann)) Sample.fresh
  = (Returned (inl 0),
     {| exe := [("insert into users(id,name) values (?,?)",
                 [VInt 7; VString "ann"])] : @ExeState Sample.executes;
        typeToFieldInfo :=
          [(TStruct "User", {| names := ["id"; "name"]; indexes := [0; 1] |})];
        trace :=
          [LogInfoCall "insert into users(id,name) values (?,?)"
             [VInt 7; VString "ann"];
           ExecCall "insert into users(id,name) values (?,?)"
             [VInt 7; VString "ann"]] |}).
Proof.
  destruct (@Insert_placeholders_match_columns Sample.executes Sample.inspector
              "users" (VPtr (TStruct "User") (Some Sample.ann)) Sample.fresh
              "User" [VInt 7; VString "ann"] 2)
    as (_ & _ & _ & H).
  - reflexivity.
  - reflexivity.
  - reflexivity.
  - lia.
  - repeat constructor.
  - rewrite H. reflexivity.
Defined.

Section WritePaths.

Context {X : sqlExecutor} {I : Inspector}.

(** [values] is made with the length of [columns]: the two always agree. *)
Lemma columnsAndValues_lengths (record : value) (e e1 : executor)
  (cols : list string) (vals : list value) :
  columnsAndValues record e = (Returned (cols, vals), e1) ->
  length vals = length cols.
Proof.
  unfold columnsAndValues. destruct (asMap record) as [m|].
  - unfold ret. intro H. inversion H. now rewrite !length_map.
  - unfold getFieldValues, bind.
    destruct (getFields record e) as [[[columns fields]|msg] e2]; [|discriminate].
    unfold lift.
    destruct (assignEach (repeat VNil (length columns)) 0 fields) as [vs|msg] eqn:Ha;
      [|discriminate].
    unfold ret. intro H. inversion H. subst.
    apply assignEach_length in Ha. now rewrite repeat_length in Ha.
Qed.

(** A struct, or pointers down to one, goes through [getFieldValues]. *)
Lemma columnsAndValues_struct (record : value) (e : executor) (n : string)
  (fs : list value) :
  reflect.holds (reflect.derefLoop (reflect.ValueOf record)) = VStruct n fs ->
  length (names (fieldInfoOf e (TStruct n)))
  = length (indexes (fieldInfoOf e (TStruct n))) ->
  Forall (fun idx => idx < length fs) (indexes (fieldInfoOf e (TStruct n))) ->
  columnsAndValues record e
  = (Returned (names (fieldInfoOf e (TStruct n)),
               map (fun idx => nth idx fs VNil)
                   (indexes (fieldInfoOf e (TStruct n)))),
     lookedUp e (TStruct n)).
Proof.
  intros Hs Hlen Hidx. unfold columnsAndValues.
  pose proof Hs as Hs'. unfold reflect.derefLoop in Hs'.
  destruct (derefFrom_struct _ _ _ _ Hs') as (_ & Hm & _).
  cbn [reflect.ValueOf reflect.holds] in Hm. rewrite Hm.
  now apply getFieldValues_struct.
Qed.

Lemma whereClause_written (buf : Buffer.t) (where_ : string) :
  (if (0 <? String.length where_)%nat
   then Buffer.WriteString (Buffer.WriteString buf " where ") where_
   else buf)
  = buf ++ whereClause where_.
Proof.
  destruct where_ as [|a w]; simpl.
  - now rewrite append_nil_r.
  - unfold Buffer.WriteString. now rewrite append_assoc.
Qed.

(** What [Upsert] does once the columns and values are at hand, with at
    least one column. *)
Lemma Upsert_runs (table : string) (record : value) (e e1 : executor)
  (c : string) (cs : list string) (vals : list value) :
  columnsAndValues record e = (Returned (c :: cs, vals), e1) ->
  let query :=
    insertText table (c :: cs) ++ " on duplicate key set "
    ++ assignments (c :: cs) in
  let args := (vals ++ vals)%list in
  Upsert table record e
  = (Returned (fst (Exec query args (exe e1))),
     after e1 (snd (Exec query args (exe e1)))
       [LogInfoCall query args; ExecCall query args]).
Proof.
  intros H query args. unfold Upsert, bind. rewrite H.
  pose proof (insert_buffer_truncated table c cs) as Hb. cbv zeta in Hb.
  cbv zeta. unfold lift. rewrite Hb.
  unfold Buffer.WriteString. rewrite writeAssignments_cons.
  match goal with
  | |- context [Buffer.Truncate ?b _] =>
      replace b with (query ++ String "," "")
        by (unfold query, insertText; reassoc)
  end.
  rewrite Truncate_last.
  unfold LogInfo, emit, callExec, Buffer.String_.
  cbn [exe typeToFieldInfo trace]. fold args.
  destruct (Exec query args (exe e1)) as [r s]. unfold after. cbn [fst snd].
  now rewrite <- app_assoc.
Qed.

(** What [Upsert] does without a column. *)
Lemma Upsert_runs_nil (table : string) (record : value) (e e1 : executor)
  (vals : list value) :
  columnsAndValues record e = (Returned ([], vals), e1) ->
  let query := ("insert into " ++ table ++ "() values )") ++ " on duplicate key set" in
  let args := (vals ++ vals)%list in
  Upsert table record e
  = (Returned (fst (Exec query args (exe e1))),
     after e1 (snd (Exec query args (exe e1)))
       [LogInfoCall query args; ExecCall query args]).
Proof.
  intros H query args. unfold Upsert, bind. rewrite H.
  pose proof (insert_buffer_truncated_nil table) as Hb. cbv zeta in Hb.
  cbv zeta. unfold lift. rewrite Hb.
  unfold Buffer.WriteString, writeAssignments. cbn [fold_left].
  match goal with
  | |- context [Buffer.Truncate ?b _] =>
      replace b with (query ++ String " " "") by (unfold query; reassoc)
  end.
  rewrite Truncate_last.
  unfold LogInfo, emit, callExec, Buffer.String_.
  cbn [exe typeToFieldInfo trace]. fold args.
  destruct (Exec query args (exe e1)) as [r s]. unfold after. cbn [fst snd].
  now rewrite <- app_assoc.
Qed.

(** What [Update] does once the columns and values are at hand. *)
Lemma Update_runs (table : string) (record : value) (where_ : string)
  (args : list value) (e e1 : executor) (cols : list string)
  (vals : list value) :
  columnsAndValues record e = (Returned (cols, vals), e1) ->
  let setText :=
    "update " ++ table ++ " set"
    ++ match cols with [] => "" | _ => " " ++ assignments cols end in
  let query := setText ++ whereClause where_ in
  let values := (vals ++ args)%list in
  Update table record where_ args e
  = (Returned (fst (Exec query values (exe e1))),
     after e1 (snd (Exec query values (exe e1)))
       [LogInfoCall query values; ExecCall query values]).
Proof.
  intros H setText query values. unfold Update, bind. rewrite H.
  cbv zeta. unfold lift.
  assert (Hb : Buffer.Truncate
                 (writeAssignments
                    (Buffer.WriteString
                       (Buffer.WriteString
                          (Buffer.WriteString Buffer.empty "update ") table)
                       " set ") cols)
                 (Buffer.Len
                    (writeAssignments
                       (Buffer.WriteString
                          (Buffer.WriteString
                             (Buffer.WriteString Buffer.empty "update ") table)
                          " set ") cols) - 1)
               = Returned setText).
  { destruct cols as [|c cs].
    - unfold writeAssignments, Buffer.WriteString, Buffer.empty. cbn [fold_left].
      match goal with
      | |- Buffer.Truncate ?b _ = _ =>
          replace b with (setText ++ String " " "")
            by (unfold setText; reassoc)
      end.
      apply Truncate_last.
    - rewrite writeAssignments_cons. unfold Buffer.WriteString, Buffer.empty.
      match goal with
      | |- Buffer.Truncate ?b _ = _ =>
          replace b with (setText ++ String "," "")
            by (unfold setText; reassoc)
      end.
      apply Truncate_last. }
  rewrite Hb. rewrite whereClause_written.
  unfold LogInfo, emit, callExec, Buffer.String_.
  cbn [exe typeToFieldInfo trace]. fold query. fold values.
  destruct (Exec query values (exe e1)) as [r s]. unfold after. cbn [fst snd].
  now rewrite <- app_assoc.
Qed.

End WritePaths.

Section WriteClaims.

Context {X : sqlExecutor} {I : Inspector}.


(** C5, as the code has it. Insert of an empty map does not fault: the
    truncation takes the opening parenthesis for the trailing comma, and
    the statement [insert into <table>() values )] goes to the executor. *)
Theorem Insert_empty_map_executes (table : string) (e : executor) :
  let query := "insert into " ++ table ++ "() values )" in
  Insert table (VMap []) e
  = (Returned (fst (Exec query [] (exe e))),
     after e (snd (Exec query [] (exe e)))
       [LogInfoCall query []; ExecCall query []]).
Proof.
  intro query. now apply Insert_runs_nil.
Qed.

(** C7. The arguments of Update are the SET values followed by the
    caller's WHERE arguments; a non-empty WHERE string goes verbatim after
    [ where ], an empty one leaves no WHERE clause, and the statement is
    executed either way.  For a typed record the SET values are the
    fields' values in cached column order. *)
Theorem Update_arguments_then_where (table : string) (record : value)
  (where_ : string) (args : list value) (e e1 : executor)
  (cols : list string) (vals : list value) :
  columnsAndValues record e = (Returned (cols, vals), e1) ->
  let setText :=
    "update " ++ table ++ " set"
    ++ match cols with [] => "" | _ => " " ++ assignments cols end in
  let query := setText ++ whereClause where_ in
  let values := (vals ++ args)%list in
  (where_ = "" -> query = setText) /\
  (where_ <> "" -> query = setText ++ " where " ++ where_) /\
  firstn (length cols) values = vals /\
  skipn (length cols) values = args /\
  (forall n fs,
     reflect.holds (reflect.derefLoop (reflect.ValueOf record)) = VStruct n fs ->
     length (names (fieldInfoOf e (TStruct n)))
     = length (indexes (fieldInfoOf e (TStruct n))) ->
     Forall (fun idx => idx < length fs) (indexes (fieldInfoOf e (TStruct n))) ->
     cols = names (fieldInfoOf e (TStruct n)) /\
     vals = map (fun idx => nth idx fs VNil)
                (indexes (fieldInfoOf e (TStruct n)))) /\
  Update table record where_ args e
  = (Returned (fst (Exec query values (exe e1))),
     after e1 (snd (Exec query values (exe e1)))
       [LogInfoCall query values; ExecCall query values]).
Proof.
  intros H setText query values.
  pose proof (columnsAndValues_lengths _ _ _ _ _ H) as Hlen.
  split; [intro Hw; unfold query; rewrite Hw; apply append_nil_r|].
  split; [intro Hw; unfold query, whereClause;
          destruct where_; [congruence | reflexivity]|].
  split; [unfold values;
          rewrite <- Hlen, firstn_app, Nat.sub_diag, firstn_all; simpl;
          apply app_nil_r|].
  split; [unfold values;
          rewrite <- Hlen, skipn_app, Nat.sub_diag, skipn_all; reflexivity|].
  split.
  - intros n fs Hs Hl Hidx.
    rewrite (columnsAndValues_struct record e n fs Hs Hl Hidx) in H.
    inversion H. split; reflexivity.
  - now apply Update_runs.
Qed.

End WriteClaims.


Lemma Update_arguments_then_where_witness :
  @Update Sample.executes Sample.inspector "users" Sample.ann "id = ?"
    [VInt 7] Sample.fresh
  = (Returned (inl 0),
     {| exe :=
          [("update users set id = ?,name = ? where id = ?",
            [VInt 7; VString "ann"; VInt 7])]
          : @ExeState Sample.executes;
        typeToFieldInfo :=
          [(TStruct "User", {| names := ["id"; "name"]; indexes := [0; 1] |})];
        trace :=
          [LogInfoCall "update users set id = ?,name = ? where id = ?"
             [VInt 7; VString "ann"; VInt 7];
           ExecCall "update users set id = ?,name = ? where id = ?"
             [VInt 7; VString "ann"; VInt 7]] |}).
Proof.
  destruct (@Update_arguments_then_where Sample.executes Sample.inspector
              "users" Sample.ann "id = ?" [VInt 7] Sample.fresh
              (@lookedUp Sample.executes Sample.inspector Sample.fresh (TStruct "User"))
              ["id"; "name"] [VInt 7; VString "ann"] eq_refl)
    as (_ & _ & _ & _ & _ & H).
  rewrite H. reflexivity.
Defined.

(** C1, as the code has it. SelectOne is a stub: it runs no query, leaves
    the record as it is and returns nil, whatever it is asked for; it never
    returns [ErrNoRows]. *)
Theorem SelectOne_returns_nil {X : sqlExecutor} (table : string)
  (record : value) (where_ : string) (args : list value) (e : executor) :
  SelectOne table record where_ args e = (Returned None, e) /\
  fst (SelectOne table record where_ args e) <> Returned (Some ErrNoRows).
Proof.
  split; [reflexivity | discriminate].
Qed.

(** ** Contract violations *)

Lemma Kind_eqb_eq (a b : reflect.Kind) : reflect.Kind_eqb a b = true <-> a = b.
Proof. destruct a, b; simpl; split; intro H; congruence. Qed.

Section Contract.

Context {X : sqlExecutor} {I : Inspector} {T : Types}.

Lemma getFields_invalid (e : executor) :
  getFields VNil e = (Panicked "invalid", e).
Proof. reflexivity. Qed.

Lemma getFields_not_struct (i : value) (e : executor) :
  i <> VNil ->
  reflect.Kind_ (reflect.derefLoop (reflect.ValueOf i)) <> reflect.Struct ->
  getFields i e = (Panicked "not struct", e).
Proof.
  intros Hnil Hk. unfold getFields.
  replace (reflect.IsValid (reflect.ValueOf i)) with true
    by (destruct i; try reflexivity; congruence).
  cbn [negb].
  destruct (reflect.Kind_eqb (reflect.Kind_ (reflect.derefLoop (reflect.ValueOf i)))
              reflect.Struct) eqn:Hb.
  - apply Kind_eqb_eq in Hb. contradiction.
  - reflexivity.
Qed.

Lemma columnsAndValues_not_struct (record : value) (e : executor) :
  asMap record = None ->
  reflect.Kind_ (reflect.derefLoop (reflect.ValueOf record)) <> reflect.Struct ->
  columnsAndValues record e
  = (Panicked match record with VNil => "invalid" | _ => "not struct" end, e).
Proof.
  intros Hm Hk. unfold columnsAndValues. rewrite Hm.
  unfold getFieldValues, bind.
  destruct record; try (rewrite getFields_not_struct by (congruence || assumption);
                        reflexivity).
  reflexivity.
Qed.

(** C9. A nil interface or a value that is not a struct behind its non-nil
    pointers makes the inspection panic; so do Insert, Update and Upsert on
    such a record when it is no map either, and Select on a destination
    that is not a pointer to a slice of structs or of pointers to structs.
    Each panics with the executor as it was: nothing logged, nothing run,
    nothing cached. *)
Theorem contract_violations_panic (table where_ : string) (args : list value)
  (e : executor) :
  getFields VNil e = (Panicked "invalid", e) /\
  (forall i,
     i <> VNil ->
     reflect.Kind_ (reflect.derefLoop (reflect.ValueOf i)) <> reflect.Struct ->
     getFields i e = (Panicked "not struct", e)) /\
  (forall record,
     asMap record = None ->
     reflect.Kind_ (reflect.derefLoop (reflect.ValueOf record)) <> reflect.Struct ->
     let msg := match record with VNil => "invalid" | _ => "not struct" end in
     Insert table record e = (Panicked msg, e) /\
     Update table record where_ args e = (Panicked msg, e) /\
     Upsert table record e = (Panicked msg, e)) /\
  (forall records,
     isPointerToSlice records = false ->
     exists msg, Select table records where_ args e = (Panicked msg, e)) /\
  (forall elem target,
     isStructOrPointerToStruct elem = false ->
     exists msg,
       Select table (VPtr (TSlice elem) target) where_ args e
       = (Panicked msg, e)).
Proof.
  split; [apply getFields_invalid|].
  split; [intros; now apply getFields_not_struct|].
  split.
  - intros record Hm Hk msg.
    pose proof (columnsAndValues_not_struct record e Hm Hk) as H. fold msg in H.
    unfold Insert, Update, Upsert, bind. rewrite H. auto.
  - split.
    + intros records H.
      destruct records as [| | | |t target| |]; try (eexists; reflexivity).
      destruct t; try discriminate H;
        destruct target; eexists; reflexivity.
    + intros elem target H.
      destruct elem as [| | |t| |]; try discriminate H;
        try (destruct target; eexists; reflexivity).
      destruct t; try discriminate H; destruct target; eexists; reflexivity.
Qed.

End Contract.

Lemma contract_violations_panic_witness :
  @Insert Sample.executes Sample.inspector "users" (VInt 3) Sample.fresh
  = (Panicked "not struct", Sample.fresh) /\
  @Update Sample.executes Sample.inspector "users"
    (VPtr (TStruct "User") None) "" [] Sample.fresh
  = (Panicked "not struct", Sample.fresh) /\
  @Upsert Sample.executes Sample.inspector "users" VNil Sample.fresh
  = (Panicked "invalid", Sample.fresh) /\
  (exists msg,
     @Select Sample.executes Sample.inspector Sample.types "users"
       (VSlice (TStruct "User") (Some [])) "" [] Sample.fresh
     = (Panicked msg, Sample.fresh)) /\
  (exists msg,
     @Select Sample.executes Sample.inspector Sample.types "users"
       (VPtr (TSlice TInt) (Some (VSlice TInt None))) "" [] Sample.fresh
     = (Panicked msg, Sample.fresh)).
Proof.
  pose proof (@contract_violations_panic Sample.executes Sample.inspector
                Sample.types "users" "" [] Sample.fresh)
    as (_ & _ & Hw & Hs & He).
  split; [apply (Hw (VInt 3)); [reflexivity | discriminate]|].
  split; [apply (Hw (VPtr (TStruct "User") None)); [reflexivity | discriminate]|].
  split; [apply (Hw VNil); [reflexivity | discriminate]|].
  split; [apply Hs; reflexivity | apply He; reflexivity].
Defined.

(** ** Select *)

Section SelectFacts.
Context {X : sqlExecutor} {I : Inspector} {T : Types}.

Lemma select_buffer (table : string) (cols : list string) (where_ : string) :
  Buffer.String_
    (if (0 <? String.length where_)%nat
     then Buffer.WriteString (Buffer.WriteString
            (Buffer.WriteString (Buffer.WriteString (Buffer.WriteString
               (Buffer.WriteString Buffer.empty "select ")
               (strings.Join cols ",")) " from ") table) " where ") where_
     else Buffer.WriteString (Buffer.WriteString (Buffer.WriteString
            (Buffer.WriteString Buffer.empty "select ")
            (strings.Join cols ",")) " from ") table)
  = selectText table cols where_.
Proof.
  rewrite whereClause_written.
  unfold Buffer.String_, Buffer.WriteString, Buffer.empty, selectText. reassoc.
Qed.

Ltac step :=
  unfold bind at 1; first [unfold lift at 1 | unfold ret at 1];
  cbn [reflect.TypeElem reflect.TypeKind reflect.Kind_eqb negb].

Ltac enter_select :=
  unfold Select;
  cbn [reflect.ValueOf reflect.Kind_ reflect.holds reflect.Kind_eqb negb
       reflect.IsNil reflect.CanSet andb reflect.settable reflect.Type_ lift].

Lemma Select_unfold (table : string) (n : string) (et : rtype) (isPtr : bool) (target : value) (where_ : string) (args : list value) (e : executor) :
  (et = TStruct n /\ isPtr = false) \/ (et = TPtr (TStruct n) /\ isPtr = true) ->
  let records := VPtr (TSlice et) (Some target) in
  let fi := fieldInfoOf e (TStruct n) in
  let q := selectText table (names fi) where_ in
  Select table records where_ args e =
  match Query q args (exe e) with
  | (inr err, s) => (Returned (records, Some err), after (lookedUp e (TStruct n)) s [LogInfoCall q args; QueryCall q args])
  | (inl rows, s) =>
     let (r, e2) := scanRows fi (TStruct n) isPtr rows {| reflect.holds := target; reflect.settable := true |} (after (lookedUp e (TStruct n)) s [LogInfoCall q args; QueryCall q args]) in
       (match r with 
        | Panicked m => Panicked m 
        | Returned (inr err) => Returned (records, Some err)
        | Returned (inl sv) => Returned (VPtr (TSlice et) (Some (reflect.holds sv)), None)
        end, closeRows e2)
  end.
Proof.
  intros H records fi q.
  destruct H as [[-> ->] | [-> ->]]; subst records; enter_select.
  1: do 3 step; unfold bind at 1; unfold ret at 1;
     cbn [reflect.TypeElem reflect.TypeKind reflect.Kind_eqb negb].
  2: do 3 step; unfold bind at 1; unfold bind at 1; unfold lift at 1;
     cbn [reflect.TypeElem reflect.TypeKind reflect.Kind_eqb negb];
     unfold ret at 1;
     cbn [reflect.TypeElem reflect.TypeKind reflect.Kind_eqb negb].
  all: unfold bind at 1; rewrite cachedFieldInfo_eq; rewrite select_buffer;
    fold fi; fold q.
  all: unfold bind at 1, LogInfo, emit; unfold bind at 1, callQuery;
    cbn [exe typeToFieldInfo trace lookedUp];
    destruct (Query q args (exe e)) as [[rows|err] s];
    unfold after, lookedUp; cbn [exe typeToFieldInfo trace];
    rewrite <- app_assoc; cbn [app].
  all: try reflexivity.
  all: unfold defer, bind at 1, ret at 1; unfold bind at 1, lift at 1;
    cbn [reflect.Elem reflect.ValueOf reflect.holds]; unfold bind at 1.
  all: match goal with |- context [scanRows ?a ?b ?c ?d ?v ?w] => destruct (scanRows a b c d v w) as [[[sv|err]|m] e2] end; try reflexivity.
Qed.


Lemma FieldAddr_all (n : string) (fs : list value) (idxs : list nat) :
  forall d,
    mapOutcome (reflect.FieldAddr {| reflect.holds := VStruct n fs; reflect.settable := true |}) idxs = Returned d ->
    d = map (fun idx => {| inStruct := n; fieldIndex := idx |}) idxs.
Proof.
  induction idxs as [|idx idxs IH]; intros d H; cbn [mapOutcome] in H.
  - now inversion H.
  - unfold reflect.FieldAddr at 1 in H. cbn [reflect.holds reflect.settable] in H.
    destruct (idx <? length fs)%nat; [|discriminate].
    destruct (mapOutcome _ idxs) as [ds|]; [|discriminate].
    inversion H. cbn [map]. f_equal. now apply IH.
Qed.

Lemma FieldAddr_in_range (n : string) (fs : list value) (idxs : list nat) :
  Forall (fun idx => idx < length fs) idxs ->
  mapOutcome (reflect.FieldAddr {| reflect.holds := VStruct n fs; reflect.settable := true |}) idxs
  = Returned (map (fun idx => {| inStruct := n; fieldIndex := idx |}) idxs).
Proof.
  induction 1 as [|idx idxs Hidx _ IH]; [reflexivity|].
  cbn [mapOutcome map]. rewrite IH. unfold reflect.FieldAddr.
  cbn [reflect.holds reflect.settable].
  apply Nat.ltb_lt in Hidx. now rewrite Hidx.
Qed.

Lemma scanRows_step (fi : fieldInfo) (n : string) (isPtr : bool) (row : Row)
  (rows : list Row) (sv : reflect.Value) (e0 : executor) :
  let elem := {| reflect.holds := VStruct n (zeroFields n); reflect.settable := true |} in
  scanRows fi (TStruct n) isPtr (row :: rows) sv e0
  = match mapOutcome (reflect.FieldAddr elem) (indexes fi) with
    | Panicked m => (Panicked m, e0)
    | Returned fields =>
        let e1 := after e0 (exe e0) [ScanCall row fields] in
        match Scan row fields with
        | inr err => (Returned (inr err), e1)
        | inl vals =>
            match (if isPtr
                   then reflect.Append sv
                          (reflect.PtrTo (TStruct n) (reflect.Stored elem fields vals))
                   else reflect.Append sv (reflect.Stored elem fields vals)) with
            | Panicked m => (Panicked m, e1)
            | Returned sv1 => scanRows fi (TStruct n) isPtr rows sv1 e1
            end
        end
    end.
Proof.
  intro elem. cbn [scanRows]. unfold callScan, emit. unfold bind, lift, ret, after.
  cbn [reflect.New reflect.Zero reflect.Elem reflect.holds]. fold elem.
  destruct (mapOutcome (reflect.FieldAddr elem) (indexes fi)) as [fields|m];
    [|reflexivity].
  destruct (Scan row fields) as [vals|err]; [|reflexivity].
  destruct isPtr;
    match goal with
    | |- context [reflect.Append ?a ?b] => destruct (reflect.Append a b)
    end; reflexivity.
Qed.

Lemma scanRows_trace (fi : fieldInfo) (n : string) (isPtr : bool) (rows : list Row) :
  forall (sv : reflect.Value) (e0 : executor),
  exists scanned rest,
    rows = (scanned ++ rest)%list /\
    trace (snd (scanRows fi (TStruct n) isPtr rows sv e0))
    = (trace e0 ++ map (fun row => ScanCall row (destinations n fi)) scanned)%list /\
    exe (snd (scanRows fi (TStruct n) isPtr rows sv e0)) = exe e0 /\
    typeToFieldInfo (snd (scanRows fi (TStruct n) isPtr rows sv e0)) = typeToFieldInfo e0 /\
    (forall sv', fst (scanRows fi (TStruct n) isPtr rows sv e0) = Returned (inl sv') -> rest = []).
Proof.
  induction rows as [|row rows IH]; intros sv e0.
  - exists [], []. cbn. rewrite app_nil_r. auto.
  - rewrite scanRows_step. cbv zeta.
    destruct (mapOutcome _ (indexes fi)) as [d|m] eqn:Hm.
    + apply FieldAddr_all in Hm. fold (destinations n fi) in Hm. subst d.
      destruct (Scan row (destinations n fi)) as [vals|err].
      * match goal with
        | |- context [if isPtr then ?a else ?b] =>
            destruct (if isPtr then a else b) as [sv1|m]
        end.
        -- match goal with
           | |- context [scanRows fi (TStruct n) isPtr rows sv1 ?e1] =>
               destruct (IH sv1 e1) as (scanned & rest & Hrows & Ht & He & Hc & Hr)
           end.
           exists (row :: scanned), rest.
           split; [now rewrite Hrows|].
           split; [rewrite Ht; cbn [after trace map]; now rewrite <- app_assoc|].
           split; [exact He|]. split; [exact Hc | exact Hr].
        -- exists [row], rows. cbn. repeat split; try reflexivity.
           intros sv' H. discriminate H.
      * exists [row], rows. cbn. repeat split; try reflexivity.
        intros sv' H. discriminate H.
    + exists [], (row :: rows). cbn. rewrite app_nil_r.
      repeat split; try reflexivity. intros sv' H. discriminate H.
Qed.

Lemma after_after (e0 : executor) (a b : list event) :
  after (after e0 (exe e0) a) (exe e0) b = after e0 (exe e0) (a ++ b)%list.
Proof. unfold after. cbn [exe typeToFieldInfo trace]. now rewrite <- app_assoc. Qed.

Lemma after_nothing (e0 : executor) : after e0 (exe e0) [] = e0.
Proof. destruct e0. unfold after. cbn. now rewrite app_nil_r. Qed.

(** When every destination exists and every row scans, the loop appends
    one element per row, in the order of the rows. *)
Lemma scanRows_all (fi : fieldInfo) (n : string) (isPtr : bool) (et : rtype)
  (rows : list Row) :
  Forall (fun idx => idx < length (zeroFields n)) (indexes fi) ->
  Forall (fun row => exists vals, Scan row (destinations n fi) = inl vals) rows ->
  forall (items : option (list value)) (s : bool) (e0 : executor),
  exists (new : list value) (sv' : reflect.Value),
    Forall2 (fun row x =>
               exists vals,
                 Scan row (destinations n fi) = inl vals /\
                 x = element isPtr n
                       (storeAll (zeroFields n) (destinations n fi) vals))
            rows new /\
    reflect.holds sv'
    = VSlice et match rows with
                | [] => items
                | _ => Some (elements items ++ new)%list
                end /\
    scanRows fi (TStruct n) isPtr rows
      {| reflect.holds := VSlice et items; reflect.settable := s |} e0
    = (Returned (inl sv'),
       after e0 (exe e0) (map (fun row => ScanCall row (destinations n fi)) rows)).
Proof.
  intros Hidx Hrows. induction Hrows as [|row rows (vals & Hvals) _ IH];
    intros items s e0.
  - exists [], {| reflect.holds := VSlice et items; reflect.settable := s |}.
    split; [constructor|]. split; [reflexivity|].
    cbn [scanRows map ret]. unfold ret. now rewrite after_nothing.
  - rewrite scanRows_step. cbv zeta.
    rewrite (FieldAddr_in_range _ _ _ Hidx). fold (destinations n fi).
    rewrite Hvals.
    set (x := element isPtr n (storeAll (zeroFields n) (destinations n fi) vals)).
    destruct (IH (Some (elements items ++ [x])%list) false
                 (after e0 (exe e0) [ScanCall row (destinations n fi)]))
      as (new & sv' & Hall & Hholds & Hrun).
    exists (x :: new), sv'.
    split; [constructor; [exists vals; auto | exact Hall]|].
    split.
    + rewrite Hholds. destruct rows as [|r rs].
      * inversion Hall. reflexivity.
      * cbn [elements]. now rewrite <- app_assoc.
    + assert (Happ :
        (if isPtr
         then reflect.Append
                {| reflect.holds := VSlice et items; reflect.settable := s |}
                (reflect.PtrTo (TStruct n)
                   (reflect.Stored
                      {| reflect.holds := VStruct n (zeroFields n);
                         reflect.settable := true |}
                      (destinations n fi) vals))
         else reflect.Append
                {| reflect.holds := VSlice et items; reflect.settable := s |}
                (reflect.Stored
                   {| reflect.holds := VStruct n (zeroFields n);
                      reflect.settable := true |}
                   (destinations n fi) vals))
        = Returned {| reflect.holds := VSlice et (Some (elements items ++ [x])%list);
                      reflect.settable := false |}).
      { unfold x, element. destruct isPtr, items; reflexivity. }
      rewrite Happ, Hrun. cbn [exe after]. cbn [map].
      f_equal. unfold after. cbn [exe typeToFieldInfo trace].
      now rewrite <- app_assoc.
Qed.

(** C2. Select takes the cached [fieldInfo] of the element type, whole: the
    SELECT column list is all of its names, in order, and every row is
    scanned into the addresses of the fields at its indexes, in the same
    order, destination i being the field cached at index i. *)
Theorem Select_columns_match_scan_targets (table : string) (n : string)
  (et : rtype) (target : value) (where_ : string) (args : list value)
  (e : executor) :
  et = TStruct n \/ et = TPtr (TStruct n) ->
  let records := VPtr (TSlice et) (Some target) in
  let fi := fieldInfoOf e (TStruct n) in
  let query :=
    "select " ++ strings.Join (names fi) "," ++ " from " ++ table
    ++ whereClause where_ in
  let dest := destinations n fi in
  let e' := snd (Select table records where_ args e) in
  length dest = length (indexes fi) /\
  (forall i, i < length (indexes fi) ->
     nth_error dest i
     = Some {| inStruct := n; fieldIndex := nth i (indexes fi) 0 |}) /\
  typeToFieldInfo e' = cacheAfter e (TStruct n) /\
  exists scanned closing,
    trace e'
    = (trace e ++ LogInfoCall query args :: QueryCall query args
         :: map (fun row => ScanCall row dest) scanned ++ closing)%list /\
    (closing = [] \/ closing = [CloseCall]) /\
    (forall rows,
       fst (Query query args (exe e)) = inl rows ->
       exists rest,
         rows = (scanned ++ rest)%list /\
         (forall r, fst (Select table records where_ args e) = Returned (r, None) ->
                    rest = [])).
Proof.
  intros Het records fi query dest e'.
  split; [unfold dest, destinations; apply length_map|].
  split.
  { intros i Hi. unfold dest, destinations. rewrite nth_error_map.
    now rewrite (nth_error_nth' (indexes fi) 0 Hi). }
  assert (Hu := fun isPtr H =>
            Select_unfold table n et isPtr target where_ args e H).
  cbv zeta in Hu. fold records fi in Hu.
  change (selectText table (names fi) where_) with query in Hu.
  assert (Hp : exists isPtr,
             (et = TStruct n /\ isPtr = false) \/ (et = TPtr (TStruct n) /\ isPtr = true))
    by (destruct Het; [exists false | exists true]; auto).
  destruct Hp as (isPtr & Hp). specialize (Hu isPtr Hp).
  unfold e'. rewrite Hu. clear Hu.
  destruct (Query query args (exe e)) as [[rows|err] s].
  - destruct (scanRows_trace fi n isPtr rows
                {| reflect.holds := target; reflect.settable := true |}
                (after (lookedUp e (TStruct n)) s
                   [LogInfoCall query args; QueryCall query args]))
      as (scanned & rest & Hrows & Ht & _ & Hc & Hr).
    destruct (scanRows fi (TStruct n) isPtr rows _ _) as [r e2].
    cbn [fst snd] in *. split; [exact Hc|].
    exists scanned, [CloseCall].
    split; [unfold closeRows; cbn [trace]; rewrite Ht; cbn [after trace lookedUp];
            rewrite <- !app_assoc; reflexivity|].
    split; [now right|].
    intros rows' Hq. inversion Hq. subst rows'. exists rest.
    split; [exact Hrows|].
    intros r0 Hret. destruct r as [[sv|err]|m]; try discriminate Hret.
    now apply (Hr sv).
  - cbn [fst snd]. split; [reflexivity|].
    exists [], []. split; [reflexivity|].
    split; [now left|]. intros rows Hq. discriminate Hq.
Qed.

(** C6, amended. Through a non-nil pointer to a slice, nil or not, Select
    appends one element per row in the order of the rows to what the slice
    holds; appending to a nil slice allocates it; with no row the slice
    stays as it is, a nil slice staying nil and empty, and Select returns
    nil. *)
Theorem Select_appends_in_row_order (table : string) (n : string)
  (et : rtype) (items : option (list value)) (where_ : string)
  (args : list value) (e : executor) (rows : list Row) (s : ExeState) :
  et = TStruct n \/ et = TPtr (TStruct n) ->
  let records := VPtr (TSlice et) (Some (VSlice et items)) in
  let fi := fieldInfoOf e (TStruct n) in
  let query :=
    "select " ++ strings.Join (names fi) "," ++ " from " ++ table
    ++ whereClause where_ in
  let dest := destinations n fi in
  let isPtr := match et with TPtr _ => true | _ => false end in
  Query query args (exe e) = (inl rows, s) ->
  Forall (fun idx => idx < length (zeroFields n)) (indexes fi) ->
  Forall (fun row => exists vals, Scan row dest = inl vals) rows ->
  exists new : list value,
    Forall2 (fun row x =>
               exists vals,
                 Scan row dest = inl vals /\
                 x = element isPtr n (storeAll (zeroFields n) dest vals))
            rows new /\
    fst (Select table records where_ args e)
    = Returned
        (VPtr (TSlice et)
           (Some (VSlice et match rows with
                            | [] => items
                            | _ => Some (elements items ++ new)%list
                            end)),
         None).
Proof.
  intros Het records fi query dest isPtr Hq Hidx Hrows.
  assert (Hp : (et = TStruct n /\ isPtr = false) \/ (et = TPtr (TStruct n) /\ isPtr = true))
    by (destruct Het as [-> | ->]; auto).
  pose proof (Select_unfold table n et isPtr (VSlice et items) where_ args e Hp)
    as Hu.
  cbv zeta in Hu. fold records fi in Hu.
  change (selectText table (names fi) where_) with query in Hu.
  rewrite Hu, Hq. clear Hu.
  destruct (scanRows_all fi n isPtr et rows Hidx Hrows items true
              (after (lookedUp e (TStruct n)) s
                 [LogInfoCall query args; QueryCall query args]))
    as (new & sv' & Hall & Hholds & Hrun).
  rewrite Hrun. cbn [fst]. exists new. split; [exact Hall|].
  now rewrite Hholds.
Qed.

Lemma Select_nil_pointer (table : string) (t : rtype) (where_ : string)
  (args : list value) (e : executor) :
  Select table (VPtr t None) where_ args e = (Panicked "cannot be set value", e).
Proof. reflexivity. Qed.
End SelectFacts.

(** ** Batch operations *)

Section BatchFacts.

Context {S : database_sql} {TM : TxMethods}.

Lemma runBatch_unfold (op : batchOp) (d : DB) (values : list value) :
  runBatch op d values
  = (' (tx, err) <- Begin d ;;
     r <- rangeReturn (eachRecord op tx) values ;;
     match r with
     | Some e => ret (Some e)
     | None => call (CommitCall tx) (Tx_Commit tx)
     end)%go.
Proof. destruct op; reflexivity. Qed.

Lemma Begin_ok (d : DB) (w : sqlWorld) (h : SqlTx) (s : SqlState) :
  sql_Begin (sqlState w) = (inl h, s) ->
  Begin d w
  = (Returned (Some {| tx := h; txDriverName := driverName d |}, None),
     {| sqlState := s; calls := (calls w ++ [BeginCall])%list |}).
Proof. intro H. unfold Begin, bind, call. now rewrite H. Qed.

Lemma Begin_fails (d : DB) (w : sqlWorld) (err : error) (s : SqlState) :
  sql_Begin (sqlState w) = (inr err, s) ->
  Begin d w
  = (Returned (None, Some err),
     {| sqlState := s; calls := (calls w ++ [BeginCall])%list |}).
Proof. intro H. unfold Begin, bind, call. now rewrite H. Qed.

Lemma callOf_not_commit (op : batchOp) (t t' : option Tx) (v : value) :
  callOf op t v <> CommitCall t'.
Proof. destruct op; discriminate. Qed.

(** One turn of the loop, by what the method does with the record. *)
Lemma loop_step (op : batchOp) (t : option Tx) (v : value) (vs : list value)
  (s : SqlState) (c : list dbEvent) :
  rangeReturn (eachRecord op t) (v :: vs) {| sqlState := s; calls := c |}
  = match methodOf op t v s with
    | (Panicked m, s1) =>
        (Panicked m, {| sqlState := s1; calls := (c ++ [callOf op t v])%list |})
    | (Returned None, s1) =>
        rangeReturn (eachRecord op t) vs
          {| sqlState := s1; calls := (c ++ [callOf op t v])%list |}
    | (Returned (Some e), s1) =>
        match Tx_Rollback t s1 with
        | (Panicked m, s2) =>
            (Panicked m,
             {| sqlState := s2;
                calls := (c ++ [callOf op t v; RollbackCall t])%list |})
        | (Returned _, s2) =>
            (Returned (Some e),
             {| sqlState := s2;
                calls := (c ++ [callOf op t v; RollbackCall t])%list |})
        end
    end.
Proof.
  cbn [rangeReturn]. unfold eachRecord, call. unfold bind, ret.
  cbn [sqlState calls].
  destruct (methodOf op t v s) as [[[e|]|m] s1]; try reflexivity.
  cbn [sqlState calls].
  destruct (Tx_Rollback t s1) as [[x|m] s2]; rewrite <- app_assoc; reflexivity.
Qed.

(** The loop never commits; when it falls through, every record went
    through the method and came back with nil. *)
Lemma loop_invariant (op : batchOp) (t : option Tx) (vs : list value) :
  forall (s : SqlState) (c : list dbEvent),
  exists l,
    calls (snd (rangeReturn (eachRecord op t) vs {| sqlState := s; calls := c |}))
    = (c ++ l)%list /\
    ~ In (CommitCall t) l /\
    (fst (rangeReturn (eachRecord op t) vs {| sqlState := s; calls := c |})
     = Returned None ->
     l = map (callOf op t) vs /\
     applied op t s vs
       (sqlState (snd (rangeReturn (eachRecord op t) vs
                         {| sqlState := s; calls := c |})))).
Proof.
  induction vs as [|v vs IH]; intros s c.
  - exists []. cbn. rewrite app_nil_r. repeat split; auto. constructor.
  - rewrite loop_step.
    destruct (methodOf op t v s) as [[[e|]|m] s1] eqn:Hm.
    + destruct (Tx_Rollback t s1) as [[x|m] s2];
        exists [callOf op t v; RollbackCall t]; cbn [snd fst calls];
        (split; [reflexivity|]);
        (split; [intros [H|[H|[]]];
                 [exact (callOf_not_commit _ _ _ _ H) | discriminate H]|]);
        intro H; discriminate H.
    + destruct (IH s1 (c ++ [callOf op t v])%list) as (l & Hl & Hn & Hr).
      exists (callOf op t v :: l).
      split; [rewrite Hl; now rewrite <- app_assoc|].
      split; [intros [H|H]; [exact (callOf_not_commit _ _ _ _ H) | exact (Hn H)]|].
      intro H. destruct (Hr H) as (-> & Ha).
      split; [reflexivity|]. econstructor; eassumption.
    + exists [callOf op t v]. cbn [snd fst calls].
      split; [reflexivity|].
      split; [intros [H|[]]; exact (callOf_not_commit _ _ _ _ H)|].
      intro H; discriminate H.
Qed.

Lemma loop_all_applied (op : batchOp) (t : option Tx) (vs : list value)
  (s s1 : SqlState) :
  applied op t s vs s1 ->
  forall c,
    rangeReturn (eachRecord op t) vs {| sqlState := s; calls := c |}
    = (Returned None,
       {| sqlState := s1; calls := (c ++ map (callOf op t) vs)%list |}).
Proof.
  induction 1 as [s|s s1 s2 v vs Hm _ IH]; intro c.
  - cbn. now rewrite app_nil_r.
  - rewrite loop_step, Hm, IH. cbn [map]. now rewrite <- app_assoc.
Qed.

Lemma loop_first_failure (op : batchOp) (t : option Tx)
  (before : list value) (s s1 : SqlState) :
  applied op t s before s1 ->
  forall v rest s2 s3 err x c,
    methodOf op t v s1 = (Returned (Some err), s2) ->
    Tx_Rollback t s2 = (Returned x, s3) ->
    rangeReturn (eachRecord op t) (before ++ v :: rest)%list
      {| sqlState := s; calls := c |}
    = (Returned (Some err),
       {| sqlState := s3;
          calls := (c ++ map (callOf op t) (before ++ [v]) ++ [RollbackCall t])%list |}).
Proof.
  induction 1 as [s|s s1 s2 v0 vs Hm _ IH]; intros v rest s2' s3 err x c Hv Hr.
  - cbn [app]. rewrite loop_step, Hv, Hr. reflexivity.
  - cbn [app]. rewrite loop_step, Hm, (IH v rest s2' s3 err x _ Hv Hr).
    cbn [map app]. now rewrite <- app_assoc.
Qed.

(** A batch operation after [Begin], by what [Begin] handed back. *)
Lemma runBatch_after_Begin (op : batchOp) (d : DB) (values : list value)
  (w : sqlWorld) (r : SqlTx + error) (s : SqlState) :
  sql_Begin (sqlState w) = (r, s) ->
  let t := match r with
           | inl h => Some {| tx := h; txDriverName := driverName d |}
           | inr _ => None
           end in
  runBatch op d values w
  = match rangeReturn (eachRecord op t) values
            {| sqlState := s; calls := (calls w ++ [BeginCall])%list |} with
    | (Returned (Some e), w1) => (Returned (Some e), w1)
    | (Returned None, w1) => call (CommitCall t) (Tx_Commit t) w1
    | (Panicked m, w1) => (Panicked m, w1)
    end.
Proof.
  intros Hb t. rewrite runBatch_unfold. unfold bind at 1.
  destruct r as [h|err].
  - rewrite (Begin_ok d w h s Hb). fold t. unfold bind.
    destruct (rangeReturn (eachRecord op t) values _) as [[[e|]|m] w1];
      reflexivity.
  - rewrite (Begin_fails d w err s Hb). fold t. unfold bind.
    destruct (rangeReturn (eachRecord op t) values _) as [[[e|]|m] w1];
      reflexivity.
Qed.

(** C8. Once Begin has opened the transaction, a batch operation puts the
    records through the method of that transaction one after the other.
    When each comes back with nil, it commits and returns what Commit
    returns.  At the first that comes back with an error it rolls the
    transaction back and returns that error, with no later record touched
    and no Commit.  Commit is never called unless every record came back
    with nil. *)
Theorem batch_all_or_nothing (op : batchOp) (d : DB) (w : sqlWorld)
  (h : SqlTx) (s : SqlState) (values : list value) :
  sql_Begin (sqlState w) = (inl h, s) ->
  let t := Some {| tx := h; txDriverName := driverName d |} in
  (forall s1,
     applied op t s values s1 ->
     runBatch op d values w
     = (fst (Tx_Commit t s1),
        {| sqlState := snd (Tx_Commit t s1);
           calls := (calls w ++ BeginCall :: map (callOf op t) values
                       ++ [CommitCall t])%list |})) /\
  (forall before v rest s1 s2 s3 err x,
     values = (before ++ v :: rest)%list ->
     applied op t s before s1 ->
     methodOf op t v s1 = (Returned (Some err), s2) ->
     Tx_Rollback t s2 = (Returned x, s3) ->
     runBatch op d values w
     = (Returned (Some err),
        {| sqlState := s3;
           calls := (calls w ++ BeginCall :: map (callOf op t) (before ++ [v])
                       ++ [RollbackCall t])%list |})) /\
  (exists l,
     calls (snd (runBatch op d values w)) = (calls w ++ BeginCall :: l)%list /\
     (In (CommitCall t) l -> exists s1, applied op t s values s1)).
Proof.
  intros Hb t. rewrite (runBatch_after_Begin op d values w _ s Hb).
  cbv zeta. fold t.
  split; [|split].
  - intros s1 Ha. rewrite (loop_all_applied op t values s s1 Ha).
    unfold call. cbn [sqlState calls].
    destruct (Tx_Commit t s1) as [r s2]. cbn [fst snd].
    now rewrite <- !app_assoc.
  - intros before v rest s1 s2 s3 err x -> Ha Hv Hr.
    rewrite (loop_first_failure op t before s s1 Ha v rest s2 s3 err x _ Hv Hr).
    now rewrite <- !app_assoc.
  - destruct (loop_invariant op t values s (calls w ++ [BeginCall])%list)
      as (l & Hl & Hn & Hr).
    destruct (rangeReturn (eachRecord op t) values _) as [[[e|]|m] w1] eqn:Hloop;
      cbn [fst snd] in *.
    + exists l. rewrite Hl, <- app_assoc.
      split; [reflexivity | intro H; contradiction].
    + destruct (Hr eq_refl) as (-> & Ha).
      exists (map (callOf op t) values ++ [CommitCall t])%list.
      unfold call. destruct (Tx_Commit t (sqlState w1)) as [r s2].
      cbn [snd calls]. rewrite Hl, <- !app_assoc.
      split; [reflexivity|]. intros _. eauto.
    + exists l. cbn [snd]. rewrite Hl, <- app_assoc.
      split; [reflexivity | intro H; contradiction].
Qed.

(** C10. When Begin fails and there is a record, a batch operation does
    not return Begin's error: it goes on to call the method on the nil
    transaction, and where that call faults, so does the operation. *)
Theorem batch_discards_Begin_error (op : batchOp) (d : DB) (w : sqlWorld)
  (err : error) (s : SqlState) (v : value) (rest : list value) :
  sql_Begin (sqlState w) = (inr err, s) ->
  (exists more,
     calls (snd (runBatch op d (v :: rest) w))
     = (calls w ++ BeginCall :: callOf op None v :: more)%list) /\
  (forall msg s1,
     methodOf op None v s = (Panicked msg, s1) ->
     runBatch op d (v :: rest) w
     = (Panicked msg,
        {| sqlState := s1;
           calls := (calls w ++ [BeginCall; callOf op None v])%list |})).
Proof.
  intro Hb. rewrite (runBatch_after_Begin op d (v :: rest) w _ s Hb).
  cbv zeta. rewrite loop_step. split.
  - destruct (methodOf op None v s) as [[[e|]|m] s1].
    + destruct (Tx_Rollback None s1) as [[x|m] s2];
        exists [RollbackCall None]; cbn [snd calls ret];
        now rewrite <- app_assoc.
    + destruct (loop_invariant op None rest s1
                  ((calls w ++ [BeginCall]) ++ [callOf op None v])%list)
        as (l & Hl & _ & _).
      destruct (rangeReturn (eachRecord op None) rest _) as [[[e|]|m] w1];
        cbn [snd] in Hl.
      * exists l. cbn [snd]. rewrite Hl, <- !app_assoc. reflexivity.
      * exists (l ++ [CommitCall None])%list. unfold call.
        destruct (Tx_Commit None (sqlState w1)) as [r s2]. cbn [snd calls].
        rewrite Hl, <- !app_assoc. reflexivity.
      * exists l. cbn [snd]. rewrite Hl, <- !app_assoc. reflexivity.
    + exists []. cbn [snd calls]. now rewrite <- app_assoc.
  - intros msg s1 Hm. rewrite Hm. now rewrite <- app_assoc.
Qed.

End BatchFacts.

Lemma batch_all_or_nothing_witness :
  @MultiInsert Sample.begins (Sample.txMethods Sample.begins)
    {| driverName := "mysql" |} [Sample.ann; Sample.bob; Sample.carl]
    (Sample.world0 Sample.begins 0)
  = (Returned (Some (Err "Duplicate entry")),
     {| sqlState := 1 : @SqlState Sample.begins;
        calls :=
          [BeginCall;
           TxInsertCall (Some {| tx := 0 : @SqlTx Sample.begins;
                                 txDriverName := "mysql" |}) Sample.ann;
           TxInsertCall (Some {| tx := 0 : @SqlTx Sample.begins;
                                 txDriverName := "mysql" |}) Sample.bob;
           RollbackCall (Some {| tx := 0 : @SqlTx Sample.begins;
                                 txDriverName := "mysql" |})] |}).
Proof.
  destruct (@batch_all_or_nothing Sample.begins (Sample.txMethods Sample.begins)
              OpInsert {| driverName := "mysql" |}
              (Sample.world0 Sample.begins 0) 0 1
              [Sample.ann; Sample.bob; Sample.carl] eq_refl)
    as (_ & H & _).
  refine (H [Sample.ann] Sample.bob [Sample.carl] 1 1 1
            (Err "Duplicate entry") None eq_refl _ eq_refl eq_refl).
  eapply applied_cons; [reflexivity | apply applied_nil].
Defined.

Lemma batch_discards_Begin_error_witness :
  @MultiSave Sample.refuses (Sample.txMethods Sample.refuses)
    {| driverName := "mysql" |} [Sample.ann; Sample.bob]
    (Sample.world0 Sample.refuses 0)
  = (Panicked "runtime error: invalid memory address or nil pointer dereference",
     {| sqlState := 0 : @SqlState Sample.refuses;
        calls := [BeginCall; TxSaveCall None Sample.ann] |}).
Proof.
  destruct (@batch_discards_Begin_error Sample.refuses
              (Sample.txMethods Sample.refuses) OpSave
              {| driverName := "mysql" |} (Sample.world0 Sample.refuses 0)
              (Err "dial tcp: connection refused") 0 Sample.ann [Sample.bob]
              eq_refl)
    as (_ & H).
  exact (H _ 0 eq_refl).
Defined.

Lemma Select_columns_match_scan_targets_witness :
  exists scanned closing,
    @trace Sample.executes
      (snd (@Select Sample.executes Sample.inspector Sample.types "users"
              (VPtr (TSlice (TStruct "User"))
                 (Some (VSlice (TStruct "User") None)))
              "id > ?" [VInt 6] Sample.fresh))
    = (LogInfoCall "select id,name from users where id > ?" [VInt 6]
       :: QueryCall "select id,name from users where id > ?" [VInt 6]
       :: map (fun row =>
                 ScanCall row
                   [{| inStruct := "User"; fieldIndex := 0 |};
                    {| inStruct := "User"; fieldIndex := 1 |}])
              scanned
       ++ closing)%list.
Proof.
  destruct (@Select_columns_match_scan_targets Sample.executes Sample.inspector
              Sample.types "users" "User" (TStruct "User")
              (VSlice (TStruct "User") None) "id > ?" [VInt 6] Sample.fresh
              (or_introl eq_refl))
    as (_ & _ & _ & scanned & closing & Ht & _ & _).
  exists scanned, closing. exact Ht.
Defined.

Lemma Select_appends_in_row_order_witness :
  fst (@Select Sample.executes Sample.inspector Sample.types "users"
         (VPtr (TSlice (TStruct "User")) (Some (VSlice (TStruct "User") None)))
         "" [] Sample.fresh)
  = Returned
      (VPtr (TSlice (TStruct "User"))
         (Some (VSlice (TStruct "User") (Some [Sample.ann; Sample.bob]))),
       None).
Proof.
  destruct (@Select_appends_in_row_order Sample.executes Sample.inspector
              Sample.types "users" "User" (TStruct "User") None "" []
              Sample.fresh [Sample.rowOf 7 "ann"; Sample.rowOf 8 "bob"]
              [("select id,name from users", [])]
              (or_introl eq_refl) eq_refl)
    as (new & Hall & H).
  - repeat constructor.
  - repeat constructor; eexists; reflexivity.
  - rewrite H.
    inversion Hall as [|r1 x1 rs1 xs1 (v1 & Hs1 & Hx1) Hall1]; subst.
    inversion Hall1 as [|r2 x2 rs2 xs2 (v2 & Hs2 & Hx2) Hall2]; subst.
    inversion Hall2; subst.
    cbv in Hs1. injection Hs1 as <-. cbv in Hs2. injection Hs2 as <-.
    reflexivity.
Defined.

(** C6, the counterexample: through a nil pointer to a slice Select does
    not allocate anything; it panics. *)
Lemma Select_nil_destination_panics :
  @Select Sample.executes Sample.inspector Sample.types "users"
    (VPtr (TSlice (TStruct "User")) None) "" [] Sample.fresh
  = (Panicked "cannot be set value", Sample.fresh) /\
  ~ (exists r e',
       @Select Sample.executes Sample.inspector Sample.types "users"
         (VPtr (TSlice (TStruct "User")) None) "" [] Sample.fresh
       = (Returned r, e')).
Proof.
  split; [reflexivity|]. intros (r & e' & H). discriminate H.
Qed.

(** A query that matches no row leaves a nil slice nil, and returns nil. *)
Example Select_no_rows :
  fst (@Select Sample.matchesNothing Sample.inspector Sample.types "users"
         (VPtr (TSlice (TPtr (TStruct "User")))
            (Some (VSlice (TPtr (TStruct "User")) None)))
         "id = ?" [VInt 404]
         {| exe := [] : @ExeState Sample.matchesNothing;
            typeToFieldInfo := []; trace := [] |})
  = Returned
      (VPtr (TSlice (TPtr (TStruct "User")))
         (Some (VSlice (TPtr (TStruct "User")) None)),
       None).
Proof. reflexivity. Qed.

(** The sample run, whole: query, two scans into the two field addresses,
    close. *)
Example Select_sample_trace :
  @trace Sample.executes
    (snd (@Select Sample.executes Sample.inspector Sample.types "users"
            (VPtr (TSlice (TStruct "User")) (Some (VSlice (TStruct "User") None)))
            "id > ?" [VInt 6] Sample.fresh))
  = [LogInfoCall "select id,name from users where id > ?" [VInt 6];
     QueryCall "select id,name from users where id > ?" [VInt 6];
     ScanCall (Sample.rowOf 7 "ann")
       [{| inStruct := "User"; fieldIndex := 0 |};
        {| inStruct := "User"; fieldIndex := 1 |}];
     ScanCall (Sample.rowOf 8 "bob")
       [{| inStruct := "User"; fieldIndex := 0 |};
        {| inStruct := "User"; fieldIndex := 1 |}];
     CloseCall].
Proof. reflexivity. Qed.

(** Insert of an empty map on the sample executor: the malformed statement
    is run. *)
Example Insert_empty_map_sample :
  @Insert Sample.executes Sample.inspector "users" (VMap []) Sample.fresh
  = (Returned (inl 0),
     {| exe := [("insert into users() values )", [])] : @ExeState Sample.executes;
        typeToFieldInfo := [];
        trace := [LogInfoCall "insert into users() values )" [];
                  ExecCall "insert into users() values )" []] |}).
Proof. reflexivity. Qed.

(** The map path: columns and values in the order of the entries. *)
Example Insert_map_sample :
  @Insert Sample.executes Sample.inspector "users"
    (VMap [("name", VString "dee"); ("id", VInt 4)]) Sample.fresh
  = (Returned (inl 0),
     {| exe := [("insert into users(name,id) values (?,?)",
                 [VString "dee"; VInt 4])] : @ExeState Sample.executes;
        typeToFieldInfo := [];
        trace := [LogInfoCall "insert into users(name,id) values (?,?)"
                    [VString "dee"; VInt 4];
                  ExecCall "insert into users(name,id) values (?,?)"
                    [VString "dee"; VInt 4]] |}).
Proof. reflexivity. Qed.

(** Update without a WHERE string: the statement has no WHERE clause and
    is run as it is. *)
Example Update_without_where_sample :
  @Update Sample.executes Sample.inspector "users" Sample.ann "" []
    Sample.fresh
  = (Returned (inl 0),
     {| exe := [("update users set id = ?,name = ?", [VInt 7; VString "ann"])]
               : @ExeState Sample.executes;
        typeToFieldInfo :=
          [(TStruct "User", {| names := ["id"; "name"]; indexes := [0; 1] |})];
        trace := [LogInfoCall "update users set id = ?,name = ?"
                    [VInt 7; VString "ann"];
                  ExecCall "update users set id = ?,name = ?"
                    [VInt 7; VString "ann"]] |}).
Proof. reflexivity. Qed.

(** SelectOne on the executor whose queries match nothing: nil, and no
    query was run. *)
Example SelectOne_no_rows_sample :
  @SelectOne Sample.matchesNothing "users" (VPtr (TStruct "User") (Some Sample.ann))
    "id = ?" [VInt 404]
    {| exe := [] : @ExeState Sample.matchesNothing;
       typeToFieldInfo := []; trace := [] |}
  = (Returned None,
     {| exe := [] : @ExeState Sample.matchesNothing;
        typeToFieldInfo := []; trace := [] |}).
Proof. reflexivity. Qed.

(** ** What the operations leave of the executor *)

Section Preservation.

Context {X : sqlExecutor} {I : Inspector}.

Variable R : executor -> executor -> Prop.
Hypothesis R_refl : forall e, R e e.
Hypothesis R_trans : forall a b c, R a b -> R b c -> R a c.

Lemma preserves_ret {A : Type} (a : A) : preserves R (ret a).
Proof. intro e. apply R_refl. Qed.

Lemma preserves_panic {A : Type} (msg : string) : preserves R (@panic _ A msg).
Proof. intro e. apply R_refl. Qed.

Lemma preserves_lift {A : Type} (o : outcome A) : preserves R (lift o).
Proof. intro e. apply R_refl. Qed.

Lemma preserves_bind {A B : Type} (c : E A) (k : A -> E B) :
  preserves R c -> (forall a, preserves R (k a)) -> preserves R (bind c k).
Proof.
  intros Hc Hk e. unfold bind. specialize (Hc e).
  destruct (c e) as [[a|m] e1]; cbn [snd] in *.
  - eapply R_trans; [exact Hc | apply Hk].
  - exact Hc.
Qed.

End Preservation.

Ltac preserve_steps refl trans :=
  repeat first
    [ apply (preserves_ret _ refl)
    | apply (preserves_panic _ refl)
    | apply (preserves_lift _ refl)
    | apply (preserves_bind _ trans); [|intro]
    | match goal with
      | |- preserves _ (if ?b then _ else _) => destruct b
      | |- preserves _ (match ?x with _ => _ end) => destruct x
      | |- preserves _ (let (_, _) := ?x in _) => destruct x
      end ].

Section MappingKept.

Context {X : sqlExecutor} {I : Inspector} {T : Types}.

Lemma mappingKept_refl (e : executor) : mappingKept e e.
Proof. split; auto. Qed.

Lemma mappingKept_trans (a b c : executor) :
  mappingKept a b -> mappingKept b c -> mappingKept a c.
Proof.
  intros [H1 H2] [H3 H4]. split.
  - intros t info H. apply H3, H1, H.
  - intro t. now rewrite H4, H2.
Qed.

(** an executor with the same cache resolves as before *)
Lemma mappingKept_same_cache (e e' : executor) :
  typeToFieldInfo e' = typeToFieldInfo e -> mappingKept e e'.
Proof.
  intro H. split.
  - intros t info. now rewrite H.
  - intro t. unfold fieldInfoOf. now rewrite H.
Qed.

Lemma mappingKept_lookedUp (e : executor) (t : rtype) :
  mappingKept e (lookedUp e t).
Proof.
  unfold lookedUp, cacheAfter.
  destruct (Load (typeToFieldInfo e) t) as [info|] eqn:Hl.
  - now apply mappingKept_same_cache.
  - split.
    + intros t' info' H. cbn [typeToFieldInfo Store Load].
      destruct (rtype_eq_dec t t') as [<-|_]; [congruence | exact H].
    + intro t'. unfold fieldInfoOf. cbn [typeToFieldInfo Store Load].
      destruct (rtype_eq_dec t t') as [<-|_]; [now rewrite Hl | reflexivity].
Qed.

Lemma keeps_emit (ev : event) : preserves mappingKept (emit ev).
Proof. intro e. now apply mappingKept_same_cache. Qed.

Lemma keeps_callExec (q : string) (a : list value) :
  preserves mappingKept (callExec q a).
Proof.
  intro e. unfold callExec. destruct (Exec q a (exe e)).
  now apply mappingKept_same_cache.
Qed.

Lemma keeps_callQuery (q : string) (a : list value) :
  preserves mappingKept (callQuery q a).
Proof.
  intro e. unfold callQuery. destruct (Query q a (exe e)).
  now apply mappingKept_same_cache.
Qed.

Lemma keeps_cachedFieldInfo (t : rtype) :
  preserves mappingKept (cachedFieldInfo t).
Proof. intro e. rewrite cachedFieldInfo_eq. apply mappingKept_lookedUp. Qed.

Lemma keeps_defer_close {A : Type} (c : E A) :
  preserves mappingKept c -> preserves mappingKept (defer closeRows c).
Proof.
  intros Hc e. unfold defer. specialize (Hc e). destruct (c e) as [r e1].
  cbn [snd] in *. eapply mappingKept_trans; [exact Hc|].
  now apply mappingKept_same_cache.
Qed.

Ltac keep :=
  repeat first
    [ apply keeps_emit | apply keeps_callExec | apply keeps_callQuery
    | apply keeps_cachedFieldInfo | apply keeps_defer_close
    | progress preserve_steps mappingKept_refl mappingKept_trans ].

Lemma keeps_getFields (i : value) : preserves mappingKept (getFields i).
Proof. unfold getFields. keep. Qed.

Lemma keeps_columnsAndValues (record : value) :
  preserves mappingKept (columnsAndValues record).
Proof.
  unfold columnsAndValues, getFieldValues. keep. apply keeps_getFields.
Qed.

Lemma keeps_scanRows (fi : fieldInfo) (t : rtype) (isPtr : bool)
  (rows : list Row) :
  forall sv, preserves mappingKept (scanRows fi t isPtr rows sv).
Proof.
  induction rows as [|row rows IH]; intro sv; cbn [scanRows].
  - keep.
  - unfold callScan. keep. apply IH.
Qed.

Lemma keeps_Insert (table : string) (record : value) :
  preserves mappingKept (Insert table record).
Proof.
  unfold Insert. cbv zeta. unfold LogInfo. keep. apply keeps_columnsAndValues.
Qed.

Lemma keeps_Update (table : string) (record : value) (where_ : string)
  (args : list value) :
  preserves mappingKept (Update table record where_ args).
Proof.
  unfold Update. cbv zeta. unfold LogInfo. keep. apply keeps_columnsAndValues.
Qed.

Lemma keeps_Upsert (table : string) (record : value) :
  preserves mappingKept (Upsert table record).
Proof.
  unfold Upsert. cbv zeta. unfold LogInfo. keep. apply keeps_columnsAndValues.
Qed.

Lemma keeps_Select (table : string) (records : value) (where_ : string)
  (args : list value) :
  preserves mappingKept (Select table records where_ args).
Proof.
  unfold Select. cbv zeta. unfold LogInfo. keep; apply keeps_scanRows.
Qed.

Lemma keeps_Delete (table where_ : string) (args : list value) :
  preserves mappingKept (Delete table where_ args).
Proof. unfold Delete. cbv zeta. unfold LogInfo. keep. Qed.

(** X1. No operation ever changes the column mapping of a type: however
    it ends, every cache entry is still there, and every type resolves to
    the [fieldInfo] it resolved to before. *)
Theorem operations_keep_mapping (table where_ : string)
  (record records : value) (args : list value) (e : executor) :
  mappingKept e (snd (Insert table record e)) /\
  mappingKept e (snd (Update table record where_ args e)) /\
  mappingKept e (snd (Upsert table record e)) /\
  mappingKept e (snd (Select table records where_ args e)) /\
  mappingKept e (snd (SelectOne table record where_ args e)) /\
  mappingKept e (snd (Delete table where_ args e)).
Proof.
  refine (conj _ (conj _ (conj _ (conj _ (conj _ _))))).
  - apply keeps_Insert.
  - apply keeps_Update.
  - apply keeps_Upsert.
  - apply keeps_Select.
  - apply mappingKept_refl.
  - apply keeps_Delete.
Qed.

End MappingKept.

Section NothingRun.

Context {X : sqlExecutor} {I : Inspector}.

Lemma nothingRun_refl (e : executor) : nothingRun e e.
Proof. split; reflexivity. Qed.

Lemma nothingRun_trans (a b c : executor) :
  nothingRun a b -> nothingRun b c -> nothingRun a c.
Proof. intros [H1 H2] [H3 H4]. split; congruence. Qed.

Lemma quiet_cachedFieldInfo (t : rtype) :
  preserves nothingRun (cachedFieldInfo t).
Proof. intro e. rewrite cachedFieldInfo_eq. split; reflexivity. Qed.

Lemma quiet_columnsAndValues (record : value) :
  preserves nothingRun (columnsAndValues record).
Proof.
  unfold columnsAndValues, getFieldValues, getFields.
  repeat first
    [ apply quiet_cachedFieldInfo
    | progress preserve_steps nothingRun_refl nothingRun_trans ].
Qed.

(** What [Delete] does. *)
Lemma Delete_runs (table where_ : string) (args : list value) (e : executor) :
  let query := "delete from " ++ table ++ whereClause where_ in
  Delete table where_ args e
  = (Returned (fst (Exec query args (exe e))),
     after e (snd (Exec query args (exe e)))
       [LogInfoCall query args; ExecCall query args]).
Proof.
  intro query. unfold Delete. cbv zeta. rewrite whereClause_written.
  unfold Buffer.String_, Buffer.WriteString, Buffer.empty.
  replace ((("" ++ "delete from ") ++ table) ++ whereClause where_)
    with query by (unfold query; reassoc).
  unfold bind, LogInfo, emit, callExec. cbn [exe typeToFieldInfo trace].
  destruct (Exec query args (exe e)) as [r s]. unfold after. cbn [fst snd].
  now rewrite <- app_assoc.
Qed.

(** A write operation that has its columns and values goes on to the
    executor: the common tail of the three. *)
Lemma extraction_decides (record : value) (e : executor)
  (op : E (Result + error)) :
  (forall m e1, columnsAndValues record e = (Panicked m, e1) ->
                op e = (Panicked m, e1)) ->
  (forall cols vals e1,
     columnsAndValues record e = (Returned (cols, vals), e1) ->
     exists q a,
       op e = (Returned (fst (Exec q a (exe e1))),
               after e1 (snd (Exec q a (exe e1)))
                 [LogInfoCall q a; ExecCall q a])) ->
  logsThenExecutes e (op e).
Proof.
  intros Hp Hr. pose proof (quiet_columnsAndValues record e) as Hq.
  destruct (columnsAndValues record e) as [[[cols vals]|m] e1] eqn:H;
    cbn [snd] in Hq.
  - right. destruct (Hr cols vals e1 eq_refl) as (q & a & Hop).
    destruct Hq as [Ht He]. exists q, a. rewrite Hop. cbn [fst snd after exe trace].
    rewrite He, Ht. auto.
  - left. exists m. rewrite (Hp m e1 eq_refl). auto.
Qed.

(** X2. Insert, Update, Upsert and Delete reach the executor at most once,
    and only right after logging the very statement and arguments they
    hand to it; when they panic, nothing has been logged or run.  Delete
    always gets there. *)
Theorem write_operations_log_then_execute (table where_ : string)
  (record : value) (args : list value) (e : executor) :
  logsThenExecutes e (Insert table record e) /\
  logsThenExecutes e (Update table record where_ args e) /\
  logsThenExecutes e (Upsert table record e) /\
  logsThenExecutes e (Delete table where_ args e) /\
  (forall m, fst (Delete table where_ args e) <> Panicked m).
Proof.
  refine (conj _ (conj _ (conj _ (conj _ _)))).
  - apply (extraction_decides record).
    + intros m e1 H. unfold Insert, bind. now rewrite H.
    + intros [|c cs] vals e1 H; eexists; eexists.
      * apply (Insert_runs_nil table record e e1 vals H).
      * apply (Insert_runs table record e e1 c cs vals H).
  - apply (extraction_decides record).
    + intros m e1 H. unfold Update, bind. now rewrite H.
    + intros cols vals e1 H. eexists; eexists.
      apply (Update_runs table record where_ args e e1 cols vals H).
  - apply (extraction_decides record).
    + intros m e1 H. unfold Upsert, bind. now rewrite H.
    + intros [|c cs] vals e1 H; eexists; eexists.
      * apply (Upsert_runs_nil table record e e1 vals H).
      * apply (Upsert_runs table record e e1 c cs vals H).
  - right. eexists; eexists. rewrite Delete_runs. cbn [fst snd after exe trace].
    auto.
  - intro m. rewrite Delete_runs. discriminate.
Qed.

(** X3. Delete builds [delete from <table>] followed by [ where ] and the
    WHERE string when there is one, and nothing after the table when
    there is none (every row); it hands the caller's arguments to the
    executor as they are and returns what the executor returns. *)
Theorem Delete_text_and_arguments (table where_ : string)
  (args : list value) (e : executor) :
  let query := "delete from " ++ table ++ whereClause where_ in
  (where_ = "" -> query = "delete from " ++ table) /\
  (where_ <> "" -> query = "delete from " ++ table ++ " where " ++ where_) /\
  Delete table where_ args e
  = (Returned (fst (Exec query args (exe e))),
     after e (snd (Exec query args (exe e)))
       [LogInfoCall query args; ExecCall query args]).
Proof.
  intro query. split; [|split].
  - intros ->. unfold query. cbn [whereClause]. now rewrite append_nil_r.
  - intro H. unfold query. destruct where_; [congruence | reflexivity].
  - apply Delete_runs.
Qed.

End NothingRun.

(** ** Select: errors, cleanup, and what follows a write *)

Section SelectPaths.

Context {X : sqlExecutor} {I : Inspector} {T : Types}.

Lemma elemType_cases (n : string) (et : rtype) :
  et = TStruct n \/ et = TPtr (TStruct n) ->
  exists isPtr,
    (et = TStruct n /\ isPtr = false) \/ (et = TPtr (TStruct n) /\ isPtr = true).
Proof. intros [H|H]; [exists false | exists true]; auto. Qed.

(** Up to the first row that does not scan, the loop scans each row once,
    and returns the error of that row. *)
Lemma scanRows_first_failure (fi : fieldInfo) (n : string) (isPtr : bool)
  (et : rtype) (before : list Row) :
  Forall (fun idx => idx < length (zeroFields n)) (indexes fi) ->
  Forall (fun row => exists vals, Scan row (destinations n fi) = inl vals) before ->
  forall (bad : Row) (rest : list Row) (err : error)
         (items : option (list value)) (s : bool) (e0 : executor),
    Scan bad (destinations n fi) = inr err ->
    scanRows fi (TStruct n) isPtr (before ++ bad :: rest)%list
      {| reflect.holds := VSlice et items; reflect.settable := s |} e0
    = (Returned (inr err),
       after e0 (exe e0)
         (map (fun row => ScanCall row (destinations n fi)) (before ++ [bad]))).
Proof.
  intros Hidx Hrows. induction Hrows as [|row rows (vals & Hvals) _ IH];
    intros bad rest err items s e0 Hbad; cbn [app].
  - rewrite scanRows_step. cbv zeta.
    rewrite (FieldAddr_in_range _ _ _ Hidx). fold (destinations n fi).
    now rewrite Hbad.
  - rewrite scanRows_step. cbv zeta.
    rewrite (FieldAddr_in_range _ _ _ Hidx). fold (destinations n fi).
    rewrite Hvals.
    assert (Happ : exists items',
      (if isPtr
       then reflect.Append
              {| reflect.holds := VSlice et items; reflect.settable := s |}
              (reflect.PtrTo (TStruct n)
                 (reflect.Stored
                    {| reflect.holds := VStruct n (zeroFields n);
                       reflect.settable := true |}
                    (destinations n fi) vals))
       else reflect.Append
              {| reflect.holds := VSlice et items; reflect.settable := s |}
              (reflect.Stored
                 {| reflect.holds := VStruct n (zeroFields n);
                    reflect.settable := true |}
                 (destinations n fi) vals))
      = Returned {| reflect.holds := VSlice et items';
                    reflect.settable := false |}).
    { destruct isPtr, items; eexists; reflexivity. }
    destruct Happ as (items' & Happ). rewrite Happ.
    rewrite (IH bad rest err items' false _ Hbad).
    cbn [exe after map]. f_equal. unfold after. cbn [exe typeToFieldInfo trace].
    now rewrite <- app_assoc.
Qed.

(** The trace of Select once the query is built: the statement logged and
    queried, then whatever follows. *)
Lemma Select_trace_prefix (table n : string) (et : rtype) (target : value)
  (where_ : string) (args : list value) (e : executor) :
  et = TStruct n \/ et = TPtr (TStruct n) ->
  let query := selectText table (names (fieldInfoOf e (TStruct n))) where_ in
  exists more,
    trace (snd (Select table (VPtr (TSlice et) (Some target)) where_ args e))
    = (trace e ++ LogInfoCall query args :: QueryCall query args :: more)%list /\
    (forall rows s, Query query args (exe e) = (inl rows, s) ->
       exists body, more = (body ++ [CloseCall])%list /\ ~ In CloseCall body) /\
    (forall err s, Query query args (exe e) = (inr err, s) -> more = []).
Proof.
  intros Het query. destruct (elemType_cases n et Het) as (isPtr & Hp).
  rewrite (Select_unfold table n et isPtr target where_ args e Hp). cbv zeta.
  fold query.
  destruct (Query query args (exe e)) as [[rows|err] s].
  - destruct (scanRows_trace (fieldInfoOf e (TStruct n)) n isPtr rows
                {| reflect.holds := target; reflect.settable := true |}
                (after (lookedUp e (TStruct n)) s
                   [LogInfoCall query args; QueryCall query args]))
      as (scanned & rest & _ & Ht & _).
    destruct (scanRows _ _ _ rows _ _) as [r e2]. cbn [snd] in *.
    exists (map (fun row => ScanCall row
                    (destinations n (fieldInfoOf e (TStruct n)))) scanned
            ++ [CloseCall])%list.
    split; [unfold closeRows; cbn [trace]; rewrite Ht; cbn [after trace lookedUp];
            now rewrite <- !app_assoc|].
    split.
    + intros rows' s' _. eexists. split; [reflexivity|].
      intro Hin. apply in_map_iff in Hin. destruct Hin as (row & Hrow & _).
      discriminate Hrow.
    + intros err s' H. discriminate H.
  - exists []. cbn [snd after trace lookedUp]. split; [reflexivity|].
    split; [intros rows s' H; discriminate H | reflexivity].
Qed.

(** X4. When the query itself fails, Select returns that error as it is
    and leaves the destination as it was; no row is scanned and, there
    being no rows, none are closed. *)
Theorem Select_query_error (table n : string) (et : rtype) (target : value)
  (where_ : string) (args : list value) (e : executor) (err : error)
  (s : ExeState) :
  et = TStruct n \/ et = TPtr (TStruct n) ->
  let records := VPtr (TSlice et) (Some target) in
  let query := selectText table (names (fieldInfoOf e (TStruct n))) where_ in
  Query query args (exe e) = (inr err, s) ->
  Select table records where_ args e
  = (Returned (records, Some err),
     {| exe := s; typeToFieldInfo := cacheAfter e (TStruct n);
        trace := (trace e ++ [LogInfoCall query args; QueryCall query args])%list |}).
Proof.
  intros Het records query Hq. destruct (elemType_cases n et Het) as (isPtr & Hp).
  unfold records. rewrite (Select_unfold table n et isPtr target where_ args e Hp).
  cbv zeta. fold query. rewrite Hq. reflexivity.
Qed.

(** X5. When a row does not scan, Select returns the error of that row and
    leaves the destination as it was, the elements of the rows before it
    included; the rows after it are not scanned, and the rows are closed. *)
Theorem Select_scan_error_leaves_destination (table n : string) (et : rtype)
  (items : option (list value)) (where_ : string) (args : list value)
  (e : executor) (before : list Row) (bad : Row) (rest : list Row)
  (err : error) (s : ExeState) :
  et = TStruct n \/ et = TPtr (TStruct n) ->
  let records := VPtr (TSlice et) (Some (VSlice et items)) in
  let fi := fieldInfoOf e (TStruct n) in
  let query := selectText table (names fi) where_ in
  let dest := destinations n fi in
  Query query args (exe e) = (inl (before ++ bad :: rest)%list, s) ->
  Forall (fun idx => idx < length (zeroFields n)) (indexes fi) ->
  Forall (fun row => exists vals, Scan row dest = inl vals) before ->
  Scan bad dest = inr err ->
  Select table records where_ args e
  = (Returned (records, Some err),
     {| exe := s; typeToFieldInfo := cacheAfter e (TStruct n);
        trace := (trace e ++ LogInfoCall query args :: QueryCall query args
                    :: map (fun row => ScanCall row dest) (before ++ [bad])
                    ++ [CloseCall])%list |}).
Proof.
  intros Het records fi query dest Hq Hidx Hbefore Hbad.
  destruct (elemType_cases n et Het) as (isPtr & Hp).
  unfold records.
  rewrite (Select_unfold table n et isPtr (VSlice et items) where_ args e Hp).
  cbv zeta. fold fi. fold query. rewrite Hq.
  rewrite (scanRows_first_failure fi n isPtr et before Hidx Hbefore bad rest err
             items true _ Hbad).
  unfold closeRows, after, lookedUp. cbn [exe typeToFieldInfo trace].
  fold dest. now rewrite <- !app_assoc.
Qed.

(** X6. Whenever the query succeeds, Select closes the rows, once and as
    the last thing it does, however it ends: with nil, with a scan error
    or with a panic. *)
Theorem Select_closes_rows (table n : string) (et : rtype) (target : value)
  (where_ : string) (args : list value) (e : executor) (rows : list Row)
  (s : ExeState) :
  et = TStruct n \/ et = TPtr (TStruct n) ->
  let query := selectText table (names (fieldInfoOf e (TStruct n))) where_ in
  Query query args (exe e) = (inl rows, s) ->
  exists body,
    trace (snd (Select table (VPtr (TSlice et) (Some target)) where_ args e))
    = (trace e ++ LogInfoCall query args :: QueryCall query args
         :: body ++ [CloseCall])%list /\
    ~ In CloseCall body.
Proof.
  intros Het query Hq.
  destruct (Select_trace_prefix table n et target where_ args e Het)
    as (more & Ht & Hok & _).
  destruct (Hok rows s Hq) as (body & -> & Hn).
  exists body. split; [exact Ht | exact Hn].
Qed.

(** X7. What a type's columns are does not move between a write and a
    read: after an Insert, however it ended, a Select for struct type [n]
    lists the columns the executor resolved for [n] before the Insert, in
    the same order; and an Insert of a record of that type listed the same
    columns. *)
Theorem Select_after_Insert_same_columns (table table' n : string)
  (record : value) (et : rtype) (target : value) (where_ : string)
  (args : list value) (e : executor) :
  et = TStruct n \/ et = TPtr (TStruct n) ->
  let fi := fieldInfoOf e (TStruct n) in
  let e1 := snd (Insert table record e) in
  let query := selectText table' (names fi) where_ in
  (exists more,
     trace (snd (Select table' (VPtr (TSlice et) (Some target)) where_ args e1))
     = (trace e1 ++ LogInfoCall query args :: QueryCall query args :: more)%list) /\
  (forall fs,
     reflect.holds (reflect.derefLoop (reflect.ValueOf record)) = VStruct n fs ->
     names fi <> [] ->
     length (names fi) = length (indexes fi) ->
     Forall (fun idx => idx < length fs) (indexes fi) ->
     let values := map (fun idx => nth idx fs VNil) (indexes fi) in
     trace e1
     = (trace e ++ [LogInfoCall (insertText table (names fi)) values;
                    ExecCall (insertText table (names fi)) values])%list).
Proof.
  intros Het fi e1 query. split.
  - destruct (Select_trace_prefix table' n et target where_ args e1 Het)
      as (more & Ht & _).
    destruct (keeps_Insert table record e) as [_ Hsame]. fold e1 in Hsame.
    rewrite (Hsame (TStruct n)) in Ht. exists more. exact Ht.
  - intros fs Hs Hne Hlen Hidx values.
    pose proof (columnsAndValues_struct record e n fs Hs Hlen Hidx) as Hcv.
    fold fi in Hcv. fold values in Hcv. unfold e1.
    destruct (names fi) as [|c cs] eqn:Hn; [congruence|].
    rewrite (Insert_runs table record e _ c cs values Hcv). reflexivity.
Qed.

End SelectPaths.

(** ** Records behind pointers, and mismatched field lists *)

Lemma assignEach_same_values (fields fields' : list reflect.Value) :
  map reflect.Interface fields = map reflect.Interface fields' ->
  forall values i, assignEach values i fields = assignEach values i fields'.
Proof.
  revert fields'. induction fields as [|f fields IH]; intros [|f' fields'] H;
    try discriminate H; [reflexivity|].
  cbn [map] in H. injection H as Hf Hrest. intros values i. cbn [assignEach].
  rewrite Hf. destruct (i <? length values)%nat; [now apply IH | reflexivity].
Qed.



Section Records.

Context {X : sqlExecutor} {I : Inspector}.







End Records.

(** ** Placeholders and arguments *)

Lemma Count_Join_none (l : list string) :
  Forall (fun s => strings.Count "?" s = 0) l ->
  strings.Count "?" (strings.Join l ",") = 0.
Proof.
  induction 1 as [|a l Ha Hl IH]; [reflexivity|].
  destruct l as [|b l]; [exact Ha|].
  rewrite Join_cons2, !Count_append, Ha, IH. reflexivity.
Qed.

Lemma Count_assignments (cols : list string) :
  Forall (fun s => strings.Count "?" s = 0) cols ->
  strings.Count "?" (assignments cols) = length cols.
Proof.
  unfold assignments. induction 1 as [|a l Ha Hl IH]; [reflexivity|].
  destruct l as [|b l].
  - cbn [map strings.Join length]. rewrite Count_append, Ha. reflexivity.
  - cbn [map length] in *. rewrite Join_cons2, !Count_append, Ha, IH.
    cbn [length]. reflexivity.
Qed.

Lemma Count_whereClause (where_ : string) :
  strings.Count "?" (whereClause where_) = strings.Count "?" where_.
Proof.
  destruct where_ as [|a w]; [reflexivity|].
  unfold whereClause. now rewrite Count_append.
Qed.

Lemma Count_insertText (table : string) (cols : list string) :
  strings.Count "?" table = 0 ->
  Forall (fun s => strings.Count "?" s = 0) cols ->
  strings.Count "?" (insertText table cols) = length cols.
Proof.
  intros Ht Hc. unfold insertText.
  rewrite !Count_append, Ht, (Count_Join_none _ Hc), Count_placeholders.
  cbn. lia.
Qed.

Section Placeholders.

Context {X : sqlExecutor} {I : Inspector}.

(** X10. With no [?] in the table and column names, the statement has
    exactly as many placeholders as the executor gets arguments: N for
    Insert, 2 x N for Upsert, and for Update N and those of the WHERE
    string, which match when the caller passes one argument per
    placeholder of its own. *)
Theorem placeholders_match_arguments (table where_ : string)
  (record : value) (args : list value) (e e1 : executor) (c : string)
  (cs : list string) (vals : list value) :
  columnsAndValues record e = (Returned (c :: cs, vals), e1) ->
  strings.Count "?" table = 0 ->
  Forall (fun col => strings.Count "?" col = 0) (c :: cs) ->
  let cols := c :: cs in
  let ran q a :=
    (Returned (fst (Exec q a (exe e1))),
     after e1 (snd (Exec q a (exe e1))) [LogInfoCall q a; ExecCall q a]) in
  let qi := insertText table cols in
  let qp := insertText table cols ++ " on duplicate key set " ++ assignments cols in
  let qu := updateText table cols ++ whereClause where_ in
  (Insert table record e = ran qi vals /\
   strings.Count "?" qi = length vals) /\
  (Upsert table record e = ran qp (vals ++ vals)%list /\
   strings.Count "?" qp = length (vals ++ vals)%list) /\
  (Update table record where_ args e = ran qu (vals ++ args)%list /\
   (strings.Count "?" where_ = length args ->
    strings.Count "?" qu = length (vals ++ args)%list)).
Proof.
  intros H Ht Hc cols ran qi qp qu. subst cols ran qi qp qu.
  pose proof (columnsAndValues_lengths _ _ _ _ _ H) as Hlen.
  split; [|split]; split.
  - apply (Insert_runs table record e e1 c cs vals H).
  - rewrite (Count_insertText _ _ Ht Hc). now rewrite Hlen.
  - apply (Upsert_runs table record e e1 c cs vals H).
  - rewrite (Count_append _ (insertText table (c :: cs))).
    rewrite (Count_insertText _ _ Ht Hc).
    rewrite (Count_append _ " on duplicate key set "), (Count_assignments _ Hc).
    rewrite length_app, Hlen. cbn. lia.
  - rewrite (Update_runs table record where_ args e e1 (c :: cs) vals H).
    unfold updateText.
    replace ("update " ++ table ++ " set" ++ " " ++ assignments (c :: cs))
      with ("update " ++ table ++ " set " ++ assignments (c :: cs)) by reassoc.
    reflexivity.
  - intro Hw. unfold updateText.
    rewrite !Count_append, Ht, (Count_assignments _ Hc), Count_whereClause,
      length_app, Hlen, Hw. cbn. lia.
Qed.

(** X11. A record without a column does not stop Update or Upsert either:
    Update runs [update <table> set] followed by the WHERE clause, Upsert
    runs [insert into <table>() values ) on duplicate key set], the
    truncation having taken a byte of the statement for the comma. *)
Theorem Update_and_Upsert_without_columns (table where_ : string)
  (record : value) (args : list value) (e e1 : executor) (vals : list value) :
  columnsAndValues record e = (Returned ([], vals), e1) ->
  let ran q a :=
    (Returned (fst (Exec q a (exe e1))),
     after e1 (snd (Exec q a (exe e1))) [LogInfoCall q a; ExecCall q a]) in
  vals = [] /\
  Update table record where_ args e
  = ran ("update " ++ table ++ " set" ++ whereClause where_) args /\
  Upsert table record e
  = ran ("insert into " ++ table ++ "() values ) on duplicate key set") [].
Proof.
  intros H ran.
  pose proof (columnsAndValues_lengths _ _ _ _ _ H) as Hlen.
  destruct vals; [|discriminate Hlen].
  split; [reflexivity|]. split.
  - rewrite (Update_runs table record where_ args e e1 [] [] H).
    unfold ran. cbn [app].
    replace (("update " ++ table ++ " set" ++ "") ++ whereClause where_)
      with ("update " ++ table ++ " set" ++ whereClause where_)
      by (rewrite append_nil_r; reassoc).
    reflexivity.
  - rewrite (Upsert_runs_nil table record e e1 [] H). unfold ran. cbn [app].
    replace (("insert into " ++ table ++ "() values )") ++ " on duplicate key set")
      with ("insert into " ++ table ++ "() values ) on duplicate key set")
      by reassoc.
    reflexivity.
Qed.

End Placeholders.

(** ** Batch operations: no record, and a record that panics *)

Section BatchEdges.

Context {S : database_sql} {TM : TxMethods}.

Lemma loop_panic (op : batchOp) (t : option Tx) (before : list value)
  (s s1 : SqlState) :
  applied op t s before s1 ->
  forall v rest s2 m c,
    methodOf op t v s1 = (Panicked m, s2) ->
    rangeReturn (eachRecord op t) (before ++ v :: rest)%list
      {| sqlState := s; calls := c |}
    = (Panicked m,
       {| sqlState := s2;
          calls := (c ++ map (callOf op t) (before ++ [v]))%list |}).
Proof.
  induction 1 as [s|s s1 s2 v0 vs Hm _ IH]; intros v rest s2' m c Hv.
  - cbn [app]. rewrite loop_step, Hv. reflexivity.
  - cbn [app]. rewrite loop_step, Hm, (IH v rest s2' m _ Hv).
    cbn [map app]. now rewrite <- app_assoc.
Qed.

(** X12. With no record at all a batch operation still opens and commits:
    it calls Begin, then Commit on whatever Begin handed back, and returns
    what Commit returns.  When Begin failed that is Commit on the nil
    transaction, Begin's error being dropped here too. *)
Theorem batch_without_records (op : batchOp) (d : DB) (w : sqlWorld)
  (r : SqlTx + error) (s : SqlState) :
  sql_Begin (sqlState w) = (r, s) ->
  let t := match r with
           | inl h => Some {| tx := h; txDriverName := driverName d |}
           | inr _ => None
           end in
  runBatch op d [] w
  = (fst (Tx_Commit t s),
     {| sqlState := snd (Tx_Commit t s);
        calls := (calls w ++ [BeginCall; CommitCall t])%list |}).
Proof.
  intros Hb t. rewrite (runBatch_after_Begin op d [] w r s Hb). cbv zeta.
  fold t. cbn [rangeReturn ret]. unfold ret, call. cbn [sqlState calls].
  destruct (Tx_Commit t s) as [x s1]. cbn [fst snd].
  now rewrite <- app_assoc.
Qed.

(** X13. When the method panics on a record, the batch operation panics
    with it and the transaction is left as it is: after the records before
    it and that one, there is no Rollback and no Commit, and no later
    record is touched. *)
Theorem batch_panic_leaves_transaction_open (op : batchOp) (d : DB)
  (w : sqlWorld) (r : SqlTx + error) (s s1 s2 : SqlState)
  (before : list value) (v : value) (rest : list value) (m : string) :
  sql_Begin (sqlState w) = (r, s) ->
  let t := match r with
           | inl h => Some {| tx := h; txDriverName := driverName d |}
           | inr _ => None
           end in
  applied op t s before s1 ->
  methodOf op t v s1 = (Panicked m, s2) ->
  runBatch op d (before ++ v :: rest)%list w
  = (Panicked m,
     {| sqlState := s2;
        calls := (calls w ++ BeginCall :: map (callOf op t) (before ++ [v]))%list |}) /\
  ~ In (RollbackCall t) (map (callOf op t) (before ++ [v])) /\
  ~ In (CommitCall t) (map (callOf op t) (before ++ [v])).
Proof.
  intros Hb t Ha Hv. split; [|split].
  - rewrite (runBatch_after_Begin op d _ w r s Hb). cbv zeta. fold t.
    rewrite (loop_panic op t before s s1 Ha v rest s2 m _ Hv).
    now rewrite <- app_assoc.
  - intro Hin. apply in_map_iff in Hin. destruct Hin as (x & Hx & _).
    destruct op; discriminate Hx.
  - intro Hin. apply in_map_iff in Hin. destruct Hin as (x & Hx & _).
    exact (callOf_not_commit _ _ _ _ Hx).
Qed.

End BatchEdges.

(** ** Further edges *)

Lemma FieldAddr_out_of_range (n : string) (fs : list value) (idxs : list nat) :
  Exists (fun idx => length fs <= idx) idxs ->
  mapOutcome (reflect.FieldAddr {| reflect.holds := VStruct n fs; reflect.settable := true |}) idxs
  = Panicked "reflect: Field index out of range".
Proof.
  induction 1 as [idx idxs Hge|idx idxs _ IH]; cbn [mapOutcome].
  - unfold reflect.FieldAddr at 1. cbn [reflect.holds reflect.settable].
    apply Nat.ltb_ge in Hge. now rewrite Hge.
  - rewrite IH. unfold reflect.FieldAddr. cbn [reflect.holds reflect.settable].
    destruct (idx <? length fs)%nat; reflexivity.
Qed.

Section FurtherEdges.

Context {X : sqlExecutor} {I : Inspector} {T : Types}.

(** X14. Select does not look at the field indexes before there is a row:
    with an index the struct has no field for, a query that matches no row
    still returns nil and leaves the destination as it was, and one that
    matches a row panics at the first, before anything is scanned, the
    rows being closed on the way out. *)
Theorem Select_checks_indexes_at_first_row (table n : string) (et : rtype)
  (target : value) (where_ : string) (args : list value) (e : executor)
  (s : ExeState) :
  et = TStruct n \/ et = TPtr (TStruct n) ->
  let records := VPtr (TSlice et) (Some target) in
  let fi := fieldInfoOf e (TStruct n) in
  let query := selectText table (names fi) where_ in
  let ended events :=
    {| exe := s; typeToFieldInfo := cacheAfter e (TStruct n);
       trace := (trace e ++ LogInfoCall query args :: QueryCall query args
                   :: events)%list |} in
  Exists (fun idx => length (zeroFields n) <= idx) (indexes fi) ->
  (Query query args (exe e) = (inl [], s) ->
   Select table records where_ args e
   = (Returned (records, None), ended [CloseCall])) /\
  (forall row rest,
     Query query args (exe e) = (inl (row :: rest), s) ->
     Select table records where_ args e
     = (Panicked "reflect: Field index out of range", ended [CloseCall])).
Proof.
  intros Het records fi query ended Hex.
  destruct (elemType_cases n et Het) as (isPtr & Hp).
  unfold records. rewrite (Select_unfold table n et isPtr target where_ args e Hp).
  cbv zeta. fold fi. fold query. split.
  - intro Hq. rewrite Hq. cbn [scanRows ret]. unfold ret, closeRows, after, lookedUp.
    cbn [reflect.holds exe typeToFieldInfo trace]. unfold ended.
    now rewrite <- !app_assoc.
  - intros row rest Hq. rewrite Hq. rewrite scanRows_step. cbv zeta.
    rewrite (FieldAddr_out_of_range _ _ _ Hex).
    unfold closeRows, after, lookedUp. cbn [exe typeToFieldInfo trace].
    unfold ended. now rewrite <- !app_assoc.
Qed.

(** X15. A map record is read without reflection: its columns are its keys
    and its arguments its values, each value at the place of its key, in
    the order the map yields its entries; the executor's cache is neither
    read nor written, and the statement is built over those columns. *)
Theorem map_record_pairs_columns_with_values (table : string)
  (p : string * value) (m : list (string * value)) (e : executor) :
  let entries := p :: m in
  let cols := map fst entries in
  let vals := map snd entries in
  combine cols vals = entries /\
  columnsAndValues (VMap entries) e = (Returned (cols, vals), e) /\
  Insert table (VMap entries) e
  = (Returned (fst (Exec (insertText table cols) vals (exe e))),
     after e (snd (Exec (insertText table cols) vals (exe e)))
       [LogInfoCall (insertText table cols) vals;
        ExecCall (insertText table cols) vals]).
Proof.
  intros entries cols vals. split; [|split].
  - unfold cols, vals. clear. induction entries as [|[k v] l IH];
      [reflexivity | cbn; now rewrite IH].
  - reflexivity.
  - exact (Insert_runs table (VMap entries) e e (fst p) (map fst m) vals eq_refl).
Qed.

End FurtherEdges.

Section BatchFinish.

Context {S : database_sql} {TM : TxMethods}.

(** When the loop returns, it has called the method on some of the
    records and, on an early return, Rollback after them. *)
Lemma loop_shape (op : batchOp) (t : option Tx) (vs : list value) :
  forall (s : SqlState) (c : list dbEvent) r w1,
    rangeReturn (eachRecord op t) vs {| sqlState := s; calls := c |}
    = (Returned r, w1) ->
    exists ks,
      calls w1
      = (c ++ map (callOf op t) ks
           ++ match r with Some _ => [RollbackCall t] | None => [] end)%list.
Proof.
  induction vs as [|v vs IH]; intros s c r w1 H.
  - cbn in H. inversion H. subst. exists []. cbn. now rewrite app_nil_r.
  - rewrite loop_step in H.
    destruct (methodOf op t v s) as [[[e|]|m] s1].
    + destruct (Tx_Rollback t s1) as [[x|m] s2]; [|discriminate H].
      inversion H. subst. exists [v]. reflexivity.
    + destruct (IH _ _ _ _ H) as (ks & Hk). exists (v :: ks).
      rewrite Hk. cbn [map]. now rewrite <- !app_assoc.
    + discriminate H.
Qed.

(** X16. Whenever a batch operation returns, it has finished the
    transaction, once and as the last thing it did: after Begin it has
    called the method on some of the records and then either Rollback or
    Commit, and nothing else. *)
Theorem batch_return_finishes_transaction (op : batchOp) (d : DB)
  (values : list value) (w : sqlWorld) (r : SqlTx + error) (s : SqlState)
  (x : option error) (w1 : sqlWorld) :
  sql_Begin (sqlState w) = (r, s) ->
  runBatch op d values w = (Returned x, w1) ->
  let t := match r with
           | inl h => Some {| tx := h; txDriverName := driverName d |}
           | inr _ => None
           end in
  exists ks finish,
    calls w1 = (calls w ++ BeginCall :: map (callOf op t) ks ++ [finish])%list /\
    (finish = RollbackCall t \/ finish = CommitCall t) /\
    ~ In (RollbackCall t) (map (callOf op t) ks) /\
    ~ In (CommitCall t) (map (callOf op t) ks).
Proof.
  intros Hb Hrun t.
  rewrite (runBatch_after_Begin op d values w r s Hb) in Hrun. cbv zeta in Hrun.
  fold t in Hrun.
  assert (Hclean : forall ks,
            ~ In (RollbackCall t) (map (callOf op t) ks) /\
            ~ In (CommitCall t) (map (callOf op t) ks)).
  { intro ks. split; intro Hin; apply in_map_iff in Hin;
      destruct Hin as (v & Hv & _); destruct op; discriminate Hv. }
  destruct (rangeReturn (eachRecord op t) values _) as [[[e|]|m] w2] eqn:Hloop;
    [| |discriminate Hrun].
  - inversion Hrun. subst. destruct (loop_shape _ _ _ _ _ _ _ Hloop) as (ks & Hk).
    exists ks, (RollbackCall t).
    split; [rewrite Hk; now rewrite <- !app_assoc|].
    split; [now left | apply Hclean].
  - destruct (loop_shape _ _ _ _ _ _ _ Hloop) as (ks & Hk).
    unfold call in Hrun. destruct (Tx_Commit t (sqlState w2)) as [y s2].
    inversion Hrun. subst. exists ks, (CommitCall t). cbn [calls].
    split; [rewrite Hk, app_nil_r; now rewrite <- !app_assoc|].
    split; [now right | apply Hclean].
Qed.

End BatchFinish.

(** ** The properties above on the sample program *)

Lemma Select_query_error_witness :
  @Select Sample.disconnected Sample.inspector Sample.types "users"
    (VPtr (TSlice (TStruct "User")) (Some (VSlice (TStruct "User") (Some [Sample.carl]))))
    "" []
    {| exe := [] : @ExeState Sample.disconnected;
       typeToFieldInfo := []; trace := [] |}
  = (Returned
       (VPtr (TSlice (TStruct "User"))
          (Some (VSlice (TStruct "User") (Some [Sample.carl]))),
        Some (Err "driver: bad connection")),
     {| exe := [] : @ExeState Sample.disconnected;
        typeToFieldInfo :=
          [(TStruct "User", {| names := ["id"; "name"]; indexes := [0; 1] |})];
        trace := [LogInfoCall "select id,name from users" [];
                  QueryCall "select id,name from users" []] |}).
Proof.
  exact (@Select_query_error Sample.disconnected Sample.inspector Sample.types
           "users" "User" (TStruct "User")
           (VSlice (TStruct "User") (Some [Sample.carl])) "" []
           {| exe := [] : @ExeState Sample.disconnected;
              typeToFieldInfo := []; trace := [] |}
           (Err "driver: bad connection") [] (or_introl eq_refl) eq_refl).
Defined.

Lemma Select_scan_error_leaves_destination_witness :
  fst (@Select Sample.halfway Sample.inspector Sample.types "users"
         (VPtr (TSlice (TStruct "User"))
            (Some (VSlice (TStruct "User") (Some [Sample.carl]))))
         "" []
         {| exe := [] : @ExeState Sample.halfway;
            typeToFieldInfo := []; trace := [] |})
  = Returned
      (VPtr (TSlice (TStruct "User"))
         (Some (VSlice (TStruct "User") (Some [Sample.carl]))),
       Some (Err "sql: Scan error on column index 0: converting NULL to int is unsupported")).
Proof.
  rewrite (@Select_scan_error_leaves_destination Sample.halfway Sample.inspector
             Sample.types "users" "User" (TStruct "User") (Some [Sample.carl])
             "" []
             {| exe := [] : @ExeState Sample.halfway;
                typeToFieldInfo := []; trace := [] |}
             [Sample.rowOf 7 "ann"] Sample.nullRow [Sample.rowOf 8 "bob"]
             (Err "sql: Scan error on column index 0: converting NULL to int is unsupported")
             [("select id,name from users", [])]
             (or_introl eq_refl) eq_refl).
  - reflexivity.
  - repeat constructor.
  - repeat constructor. eexists. reflexivity.
  - reflexivity.
Defined.

Lemma Select_closes_rows_witness :
  exists body,
    @trace Sample.halfway
      (snd (@Select Sample.halfway Sample.inspector Sample.types "users"
              (VPtr (TSlice (TStruct "User")) (Some (VSlice (TStruct "User") None)))
              "" []
              {| exe := [] : @ExeState Sample.halfway;
                 typeToFieldInfo := []; trace := [] |}))
    = (LogInfoCall "select id,name from users" []
       :: QueryCall "select id,name from users" []
       :: body ++ [CloseCall])%list /\
    ~ In CloseCall body.
Proof.
  exact (@Select_closes_rows Sample.halfway Sample.inspector Sample.types
           "users" "User" (TStruct "User") (VSlice (TStruct "User") None) "" []
           {| exe := [] : @ExeState Sample.halfway;
              typeToFieldInfo := []; trace := [] |}
           [Sample.rowOf 7 "ann"; Sample.nullRow; Sample.rowOf 8 "bob"]
           [("select id,name from users", [])]
           (or_introl eq_refl) eq_refl).
Defined.

Lemma Select_after_Insert_same_columns_witness :
  exists more,
    @trace Sample.executes
      (snd (@Select Sample.executes Sample.inspector Sample.types "users"
              (VPtr (TSlice (TPtr (TStruct "User")))
                 (Some (VSlice (TPtr (TStruct "User")) None)))
              "" []
              (snd (@Insert Sample.executes Sample.inspector "users"
                      Sample.ann Sample.fresh))))
    = (@trace Sample.executes
         (snd (@Insert Sample.executes Sample.inspector "users"
                 Sample.ann Sample.fresh))
       ++ LogInfoCall "select id,name from users" []
       :: QueryCall "select id,name from users" [] :: more)%list.
Proof.
  exact (proj1 (@Select_after_Insert_same_columns Sample.executes
                  Sample.inspector Sample.types "users" "users" "User"
                  Sample.ann (TPtr (TStruct "User"))
                  (VSlice (TPtr (TStruct "User")) None) "" [] Sample.fresh
                  (or_intror eq_refl))).
Defined.



Lemma placeholders_match_arguments_witness :
  strings.Count "?"
    "insert into users(id,name) values (?,?) on duplicate key set id = ?,name = ?"
  = length [VInt 7; VString "ann"; VInt 7; VString "ann"].
Proof.
  destruct (@placeholders_match_arguments Sample.executes Sample.inspector
              "users" "" Sample.ann [] Sample.fresh
              (@lookedUp Sample.executes Sample.inspector Sample.fresh (TStruct "User"))
              "id" ["name"] [VInt 7; VString "ann"] eq_refl eq_refl)
    as (_ & (_ & H) & _).
  - repeat constructor.
  - exact H.
Defined.

Lemma Update_and_Upsert_without_columns_witness :
  @Update Sample.executes Sample.inspector "users" (VMap []) "id = ?" [VInt 7]
    Sample.fresh
  = (Returned (inl 0),
     {| exe := [("update users set where id = ?", [VInt 7])]
               : @ExeState Sample.executes;
        typeToFieldInfo := [];
        trace := [LogInfoCall "update users set where id = ?" [VInt 7];
                  ExecCall "update users set where id = ?" [VInt 7]] |}).
Proof.
  destruct (@Update_and_Upsert_without_columns Sample.executes Sample.inspector
              "users" "id = ?" (VMap []) [VInt 7] Sample.fresh Sample.fresh []
              eq_refl)
    as (_ & H & _).
  rewrite H. reflexivity.
Defined.

Lemma batch_without_records_witness :
  @MultiUpdate Sample.refuses (Sample.txMethods Sample.refuses)
    {| driverName := "mysql" |} [] (Sample.world0 Sample.refuses 0)
  = (Panicked "runtime error: invalid memory address or nil pointer dereference",
     {| sqlState := 0 : @SqlState Sample.refuses;
        calls := [BeginCall; CommitCall None] |}).
Proof.
  exact (@batch_without_records Sample.refuses (Sample.txMethods Sample.refuses)
           OpUpdate {| driverName := "mysql" |} (Sample.world0 Sample.refuses 0)
           (inr (Err "dial tcp: connection refused")) 0 eq_refl).
Defined.

Lemma batch_panic_leaves_transaction_open_witness :
  @MultiInsert Sample.begins (Sample.txMethodsStrict Sample.begins)
    {| driverName := "mysql" |} [Sample.ann; VInt 3; Sample.carl]
    (Sample.world0 Sample.begins 0)
  = (Panicked "not struct",
     {| sqlState := 1 : @SqlState Sample.begins;
        calls :=
          [BeginCall;
           TxInsertCall (Some {| tx := 0 : @SqlTx Sample.begins;
                                 txDriverName := "mysql" |}) Sample.ann;
           TxInsertCall (Some {| tx := 0 : @SqlTx Sample.begins;
                                 txDriverName := "mysql" |}) (VInt 3)] |}).
Proof.
  refine (proj1 (@batch_panic_leaves_transaction_open Sample.begins
                   (Sample.txMethodsStrict Sample.begins) OpInsert
                   {| driverName := "mysql" |} (Sample.world0 Sample.begins 0)
                   (inl 0) 1 1 1 [Sample.ann] (VInt 3) [Sample.carl]
                   "not struct" eq_refl _ eq_refl)).
  eapply applied_cons; [reflexivity | apply applied_nil].
Defined.

Lemma Select_checks_indexes_at_first_row_witness :
  fst (@Select Sample.matchesNothing
         {| getFieldInfo := fun _ => {| names := ["id"]; indexes := [5] |} |}
         Sample.types "users"
         (VPtr (TSlice (TStruct "User")) (Some (VSlice (TStruct "User") None)))
         "" []
         {| exe := [] : @ExeState Sample.matchesNothing;
            typeToFieldInfo := []; trace := [] |})
  = Returned
      (VPtr (TSlice (TStruct "User")) (Some (VSlice (TStruct "User") None)),
       None).
Proof.
  destruct (@Select_checks_indexes_at_first_row Sample.matchesNothing
              {| getFieldInfo := fun _ => {| names := ["id"]; indexes := [5] |} |}
              Sample.types "users" "User" (TStruct "User")
              (VSlice (TStruct "User") None) "" []
              {| exe := [] : @ExeState Sample.matchesNothing;
                 typeToFieldInfo := []; trace := [] |}
              [("select id from users", [])] (or_introl eq_refl))
    as (H & _).
  - apply Exists_cons_hd. cbn. lia.
  - rewrite H; reflexivity.
Defined.

Lemma batch_return_finishes_transaction_witness :
  exists ks finish,
    [BeginCall;
     TxInsertCall (Some {| tx := 0 : @SqlTx Sample.begins;
                           txDriverName := "mysql" |}) Sample.ann;
     TxInsertCall (Some {| tx := 0 : @SqlTx Sample.begins;
                           txDriverName := "mysql" |}) Sample.bob;
     RollbackCall (Some {| tx := 0 : @SqlTx Sample.begins;
                           txDriverName := "mysql" |})]
    = (BeginCall
       :: map (TxInsertCall (Some {| tx := 0 : @SqlTx Sample.begins;
                                     txDriverName := "mysql" |})) ks
       ++ [finish])%list /\
    (finish = RollbackCall (Some {| tx := 0 : @SqlTx Sample.begins;
                                    txDriverName := "mysql" |})
     \/ finish = CommitCall (Some {| tx := 0 : @SqlTx Sample.begins;
                                     txDriverName := "mysql" |})).
Proof.
  destruct (@batch_return_finishes_transaction Sample.begins
              (Sample.txMethods Sample.begins) OpInsert
              {| driverName := "mysql" |}
              [Sample.ann; Sample.bob; Sample.carl]
              (Sample.world0 Sample.begins 0) (inl 0) 1
              (Some (Err "Duplicate entry")) _ eq_refl eq_refl)
    as (ks & finish & Hc & Hf & _).
  exists ks, finish. split; [exact Hc | exact Hf].
Defined.
